(** * edbg, Linux hidraw back end (dbg_lin.c): descriptor parser and
      framed CMSIS-DAP transport

    A shallow embedding of [parse_hid_report_desc], [dbg_open],
    [dbg_close] and [dbg_dap_cmd], followed by the properties the
    specification states about them, and of [dbg_enumerate] and
    [dbg_get_report_size], with further properties of all six.

    Conventions.
    - A C [int] is a [Z].  The loop indices stay within [size + 4], so
      no wrap-around is written for them; the [uint32_t] accumulator of
      the parser is reduced modulo [2^32] where the C code converts to
      it.
    - A [uint8_t] is a [Byte.byte]; [u8] is its integer promotion.
    - [parse_hid_report_desc] receives a bare pointer: the memory behind
      it is a total map from offset to byte, and every load the function
      performs is recorded, so that bounds on the offsets it touches can
      be stated.
    - The arrays of [dbg_dap_cmd] (the static [hid_buffer] and the
      caller's array) are lists; an access outside an array, which C
      leaves undefined, ends the model in [Undefined].
    - [error_exit], [perror_exit] and [check] terminate the process;
      the model ends in [Exited] with a constructor for the message.
    - A C string is a [String.string], a pointer that can be NULL an
      [option]; what udev and the C library do is given to the model of
      [dbg_enumerate] from outside. *)

From Stdlib Require Import ZArith List Lia Bool.
From Stdlib Require Import Strings.Byte.
From Equations Require Import Equations.
From Stdlib Require Import Sorted.
From Stdlib Require Strings.String Strings.Ascii.
Import String.StringSyntax.
Delimit Scope string_scope with string.
Import ListNotations.
Open Scope Z_scope.

(** ** Machine data *)

(** Integer promotion of a [uint8_t]. *)
Definition u8 (b : byte) : Z := Z.of_N (Byte.to_N b).

(** Conversion to [uint32_t]. *)
Definition to_u32 (x : Z) : Z := x mod 2 ^ 32.

(** Modelled from the spec: [error_exit], [perror_exit] and [check] are
    declared in edbg.h, which is not part of the sources at hand.  The
    spec describes them as process termination on error; each call site
    of dbg_lin.c gets the constructor that carries its message
    arguments. *)
Inductive error : Type :=
| SizeMismatch                      (* "input and output report sizes do not match" *)
| UnsupportedSize (detected : Z)    (* "detected report size (%d) is not 64, 512 or 1024" *)
| OpenFailed                        (* "unable to open device %s: %s" *)
| IoctlFailed                       (* perror "debugger ioctl()" *)
| WriteFailed                       (* perror "debugger write()" *)
| ReadFailed                        (* perror "debugger read()" *)
| EmptyResponse                     (* "empty response received" *)
| InvalidResponse (request response : byte).
                                    (* "invalid response received: request = 0x%02x, response = 0x%02x" *)

Inductive outcome (A : Type) : Type :=
| Returned (a : A)      (* the function returned [a] *)
| Exited (e : error)    (* the process was terminated with message [e] *)
| Undefined.            (* an array was accessed out of its bounds *)
Arguments Returned {A} a.
Arguments Exited {A} e.
Arguments Undefined {A}.

(** ** The report-descriptor parser, lines 85-123 *)

Module Parser.

(** The three locals of [parse_hid_report_desc], and the offsets of
    [data] loaded so far, oldest first. *)
Record pstate : Type := mk_pstate {
  count : Z;
  input : Z;
  output : Z;
  loads : list Z
}.

Definition init : pstate := mk_pstate 0 0 0 [].

(** [for (int j = 0; j < bSize; j++) count |= (data[i + j] << (j * 8));]
    with [n] iterations left.  The shift is carried out on [int] and the
    result converted to [uint32_t] for the [|=].  For [j = 3] and a
    byte of 0x80 or more the product does not fit an [int]; the
    two's-complement [int] that the compilers of the project produce
    converts to the same [uint32_t] as the exact product does, which is
    what [to_u32] is applied to. *)
Fixpoint count_loop (data : Z -> byte) (i : Z) (n : nat) (j : Z)
    (st : pstate) : pstate :=
  match n with
  | O => st
  | S n' =>
      let b := u8 (data (i + j)) in
      count_loop data i n' (j + 1)
        (mk_pstate (Z.lor (count st) (to_u32 (Z.shiftl b (j * 8))))
                   (input st) (output st) (loads st ++ [i + j]))
  end.

(** The sub-fields of an item prefix, lines 95-99. *)
Definition bTag (prefix : Z) : Z := Z.land (Z.shiftr prefix 4) 0x0f.
Definition bType (prefix : Z) : Z := Z.land (Z.shiftr prefix 2) 0x03.
Definition bSize (prefix : Z) : Z :=
  let s := Z.land prefix 0x03 in
  if 3 =? s then 4 else s.

(** One iteration of the outer loop, lines 94-113, entered with index
    [i]; returns the index for the next iteration. *)
Definition item_step (data : Z -> byte) (i : Z) (st : pstate) : Z * pstate :=
  let prefix := u8 (data i) in
  let st := mk_pstate (count st) (input st) (output st) (loads st ++ [i]) in
  let i := i + 1 in
  let st :=
    if (1 =? bType prefix) && (9 =? bTag prefix) then
      count_loop data i (Z.to_nat (bSize prefix)) 0
        (mk_pstate 0 (input st) (output st) (loads st))
    else if (0 =? bType prefix) && (8 =? bTag prefix) then
      mk_pstate (count st) (count st) (output st) (loads st)
    else if (0 =? bType prefix) && (9 =? bTag prefix) then
      mk_pstate (count st) (input st) (count st) (loads st)
    else st in
  (i + bSize prefix, st).

Lemma bSize_range (b : byte) : 0 <= bSize (u8 b) <= 4.
Proof. destruct b; vm_compute; split; discriminate. Qed.

Lemma item_step_index data i st :
  fst (item_step data i st) = i + 1 + bSize (u8 (data i)).
Proof. reflexivity. Qed.

(** [for (int i = 0; i < size; ) { ... }], lines 92-114. *)
Equations? parse_loop (data : Z -> byte) (size : Z) (i : Z) (st : pstate)
    : pstate by wf (Z.to_nat (size - i)) lt :=
  parse_loop data size i st with Z_lt_dec i size => {
    | left _ := parse_loop data size (fst (item_step data i st))
                                     (snd (item_step data i st));
    | right _ := st }.
Proof.
  pose proof (bSize_range (data i)). lia.
Qed.

(** The post-pass checks and the return, lines 116-122. *)
Definition validate (st : pstate) : outcome Z :=
  if negb (input st =? output st) then Exited SizeMismatch
  else if negb (64 =? input st) && negb (512 =? input st)
          && negb (1024 =? input st)
  then Exited (UnsupportedSize (input st))
  else Returned (input st).

Definition parse_hid_report_desc (data : Z -> byte) (size : Z) : outcome Z :=
  validate (parse_loop data size 0 init).

(** The offsets of [data] that a call loads, in program order. *)
Definition parse_loads (data : Z -> byte) (size : Z) : list Z :=
  loads (parse_loop data size 0 init).

(** Memory holding the bytes [l] from offset 0 on, and [rest] at every
    other offset. *)
Definition mem_of (l : list byte) (rest : byte) : Z -> byte :=
  fun k => if k <? 0 then rest else nth (Z.to_nat k) l rest.

(** The [n] bytes of [data] from offset [i] on. *)
Fixpoint bytes_at (data : Z -> byte) (i : Z) (n : nat) : list byte :=
  match n with
  | O => []
  | S n' => data i :: bytes_at data (i + 1) n'
  end.

(** The byte sequence that the caller supplies: [size] bytes at [data]. *)
Definition descriptor (data : Z -> byte) (size : Z) : list byte :=
  bytes_at data 0 (Z.to_nat size).

(** The bytes from offset [i] up to the supplied length. *)
Definition window (data : Z -> byte) (size i : Z) : list byte :=
  bytes_at data i (Z.to_nat (size - i)).

(** The offsets [i], [i+1], ... of [n] consecutive bytes. *)
Fixpoint offsets (i : Z) (n : nat) : list Z :=
  match n with
  | O => []
  | S n' => i :: offsets (i + 1) n'
  end.

(** The prefix [b] is that of a Report Count item, line 101. *)
Definition is_report_count (b : byte) : bool :=
  (1 =? bType (u8 b)) && (9 =? bTag (u8 b)).

End Parser.

(** ** The parser as section 4.1 of the specification words it

    A second definition, written from the numbered steps of the
    specification over the byte sequence alone, to compare
    [Parser.parse_hid_report_desc] with. *)

Module DescriptorSpec.

(** Step 2: a 4-bit tag, a 2-bit type and a 2-bit size code. *)
Definition tag_of (header : byte) : Z := u8 header / 16.
Definition type_of (header : byte) : Z := (u8 header / 4) mod 4.
Definition size_code (header : byte) : Z := u8 header mod 4.

(** Step 2: size code 3 denotes 4 bytes, codes 0-2 denote 0, 1, 2. *)
Definition payload_length (code : Z) : nat :=
  if code =? 3 then 4%nat else Z.to_nat code.

(** Step 3: a little-endian unsigned integer; no bytes yield 0. *)
Fixpoint little_endian (bs : list byte) : Z :=
  match bs with
  | [] => 0
  | b :: rest => u8 b + 256 * little_endian rest
  end.

Record item : Type := mk_item { tag : Z; type : Z; value : Z }.

(** Steps 2, 3 and 5: decode a header, read its payload, advance past
    it, until the sequence is exhausted. *)
Equations? items (l : list byte) : list item by wf (length l) lt :=
  items [] := [];
  items (h :: rest) :=
    mk_item (tag_of h) (type_of h)
            (little_endian (firstn (payload_length (size_code h)) rest))
    :: items (skipn (payload_length (size_code h)) rest).
Proof. rewrite length_skipn. simpl. lia. Qed.

(** Steps 1 and 4: the running report count and the two snapshots. *)
Record sizes : Type := mk_sizes {
  running_count : Z;
  input_size : Z;
  output_size : Z
}.

Definition dispatch (s : sizes) (it : item) : sizes :=
  if (type it =? 1) && (tag it =? 9) then
    mk_sizes (value it) (input_size s) (output_size s)
  else if (type it =? 0) && (tag it =? 8) then
    mk_sizes (running_count s) (running_count s) (output_size s)
  else if (type it =? 0) && (tag it =? 9) then
    mk_sizes (running_count s) (input_size s) (running_count s)
  else s.

Definition resolve (l : list byte) : sizes :=
  fold_left dispatch (items l) (mk_sizes 0 0 0).

(** No item is truncated: every payload lies within the sequence. *)
Equations? complete (l : list byte) : bool by wf (length l) lt :=
  complete [] := true;
  complete (h :: rest) :=
    (payload_length (size_code h) <=? length rest)%nat
    && complete (skipn (payload_length (size_code h)) rest).
Proof. rewrite length_skipn. simpl. lia. Qed.

(** The sizes the protocol supports. *)
Definition supported (n : Z) : Prop := n = 64 \/ n = 512 \/ n = 1024.

(** Step 6: the post-pass validation. *)
Definition parse (l : list byte) : outcome Z :=
  let s := resolve l in
  if Z.eq_dec (input_size s) (output_size s) then
    if in_dec Z.eq_dec (input_size s) [64; 512; 1024]
    then Returned (input_size s)
    else Exited (UnsupportedSize (input_size s))
  else Exited SizeMismatch.

End DescriptorSpec.

(** ** From the locals of the code to the sizes of the specification *)

Module Abstraction.
Import Parser DescriptorSpec.

Definition sizes_of (st : pstate) : sizes :=
  mk_sizes (count st) (input st) (output st).

(** The item that the specification decodes at offset [i]. *)
Definition item_at (data : Z -> byte) (i : Z) (payload : list byte) : item :=
  mk_item (tag_of (data i)) (type_of (data i)) (little_endian payload).

End Abstraction.

(** ** The framed transport, lines 23-25 and 126-193 *)

Module Transport.

(** Modelled from the spec: [DBG_MAX_EP_SIZE] is defined in dbg.h, which
    is not part of the sources at hand.  The spec sizes the exchange
    buffer "to the maximum supported packet size + 1", the supported
    sizes being 64, 512 and 1024. *)
Definition DBG_MAX_EP_SIZE : Z := 1024.

(** The three file-scope variables, lines 23-25. *)
Record globals : Type := mk_globals {
  debugger_fd : Z;
  hid_buffer : list byte;
  report_size : Z
}.

Definition initial : globals :=
  mk_globals (-1) (repeat x00 (Z.to_nat (DBG_MAX_EP_SIZE + 1))) 0.

(** *** Array accesses; [None] when outside the array *)

Definition len (buf : list byte) : Z := Z.of_nat (length buf).

(** [buf] with the bytes [seg] stored from index [pos] on. *)
Definition overwrite (buf : list byte) (pos : nat) (seg : list byte)
    : list byte :=
  firstn pos buf ++ seg ++ skipn (pos + length seg) buf.

(** [memset(buf, c, n)]. *)
Definition memset (buf : list byte) (c : byte) (n : Z) : option (list byte) :=
  if (0 <=? n) && (n <=? len buf)
  then Some (overwrite buf 0 (repeat c (Z.to_nat n)))
  else None.

(** [buf[k] = c]. *)
Definition store (buf : list byte) (k : Z) (c : byte) : option (list byte) :=
  if (0 <=? k) && (k <? len buf)
  then Some (overwrite buf (Z.to_nat k) [c])
  else None.

(** [buf[k]]. *)
Definition load (buf : list byte) (k : Z) : option byte :=
  if 0 <=? k then nth_error buf (Z.to_nat k) else None.

(** [memcpy(&dst[to], &src[from], n)]; [n] is converted to [size_t], so
    a negative [n] asks for more than any array holds. *)
Definition memcpy (dst : list byte) (to : Z) (src : list byte) (from : Z)
    (n : Z) : option (list byte) :=
  if (0 <=? to) && (0 <=? from) && (0 <=? n)
     && (to + n <=? len dst) && (from + n <=? len src)
  then Some (overwrite dst (Z.to_nat to)
               (firstn (Z.to_nat n) (skipn (Z.to_nat from) src)))
  else None.

Definition bind {A B : Type} (o : option A) (k : A -> option B) : option B :=
  match o with
  | Some a => k a
  | None => None
  end.

Notation "x <- o ;; k" := (bind o (fun x => k))
  (at level 61, o at next level, right associativity).

(** *** The device, as one call sees it *)

(** What [read(2)] delivers: an error, or the bytes of one report. *)
Inductive read_reply : Type :=
| ReadError
| ReadBytes (bs : list byte).

(** The replies of the operating system to the [write] and the [read]
    of one [dbg_dap_cmd]. *)
Record device : Type := mk_device {
  write_result : Z;
  read_result : read_reply
}.

(** The bytes that a [read] of at most [n] bytes delivers. *)
Definition delivered (r : read_reply) (n : Z) : option (list byte) :=
  match r with
  | ReadError => None
  | ReadBytes bs => Some (firstn (Z.to_nat n) bs)
  end.

(** [read(fd, buf, n)]: the delivered bytes are stored at the start of
    [buf] and their number is returned; -1 on error. *)
Definition sys_read (r : read_reply) (buf : list byte) (n : Z)
    : Z * list byte :=
  match delivered r n with
  | None => (-1, buf)
  | Some got => (len got, overwrite buf 0 got)
  end.

(** *** [dbg_dap_cmd], lines 166-193 *)

(** Lines 171-174: [hid_buffer] as it is handed to [write]. *)
Definition fill_frame (g : globals) (data : list byte) (req_size : Z)
    : option (list byte) :=
  b <- memset (hid_buffer g) xff (report_size g + 1) ;;
  b <- store b 0 x00 ;;
  memcpy b 1 data 0 req_size.

(** Lines 176-192, entered with [cmd] as line 168 read it and with
    [hid], the contents of [hid_buffer] after line 174.  A return
    carries the return value, the caller's array and the file-scope
    variables. *)
Definition receive (dev : device) (g : globals) (cmd : byte)
    (hid data : list byte) (resp_size : Z)
    : outcome (Z * list byte * globals) :=
  let res := write_result dev in
  if res <? 0 then Exited WriteFailed else
  let (res, hid) := sys_read (read_result dev) hid (report_size g + 1) in
  if res <? 0 then Exited ReadFailed else
  if res =? 0 then Exited EmptyResponse else
  match load hid 0 with
  | None => Undefined
  | Some b0 =>
      if negb (Byte.eqb b0 cmd) then Exited (InvalidResponse cmd b0)
      else
        let res := res - 1 in
        match memcpy data 0 hid 1
                (if resp_size <? res then resp_size else res) with
        | None => Undefined
        | Some data' =>
            Returned (res, data',
                      mk_globals (debugger_fd g) hid (report_size g))
        end
  end.

(** What one call does: the bytes it passed to [write] at line 176, if
    it got that far, and how it ended. *)
Record exchange : Type := mk_exchange {
  written : option (list byte);
  result : outcome (Z * list byte * globals)
}.

(** Line 168 reads [data[0]], lines 171-174 are [fill_frame], line 176
    writes the first [report_size + 1] bytes of [hid_buffer], and
    [receive] is the rest. *)
Definition dbg_dap_cmd (dev : device) (g : globals) (data : list byte)
    (resp_size req_size : Z) : exchange :=
  match load data 0, fill_frame g data req_size with
  | Some cmd, Some hid =>
      mk_exchange (Some (firstn (Z.to_nat (report_size g + 1)) hid))
                  (receive dev g cmd hid data resp_size)
  | _, _ => mk_exchange None Undefined
  end.

(** What the caller gets back: the return value and its array. *)
Definition answer (x : exchange) : outcome (Z * list byte) :=
  match result x with
  | Returned (res, data, _) => Returned (res, data)
  | Exited e => Exited e
  | Undefined => Undefined
  end.

(** *** Lines 171-174 in closed form *)

(** The array after lines 171-174. *)
Definition filled (hid data : list byte) (rs req : Z) : list byte :=
  overwrite
    (overwrite (overwrite hid 0 (repeat xff (Z.to_nat (rs + 1)))) 0 [x00])
    1 (firstn (Z.to_nat req) data).

(** The accesses of lines 171-174 stay inside the two arrays. *)
Definition fill_in_bounds (hid_len data_len rs req : Z) : bool :=
  (0 <=? rs + 1) && (rs + 1 <=? hid_len) && (0 <? hid_len)
  && (0 <=? req) && (1 + req <=? hid_len) && (req <=? data_len).

(** Two arrays of one length that hold the same bytes below index [n]. *)
Definition agree (n : nat) (a b : list byte) : Prop :=
  length a = length b /\
  forall k, (k < n)%nat -> nth_error a k = nth_error b k.

(** *** [dbg_open] and [dbg_close], lines 126-157 *)

(** The descriptors the process holds open. *)
Definition fd_table : Type := list Z.

(** [close(fd)] as POSIX has it: releases [fd] and returns 0 if it is
    open, else fails with EBADF, returns -1 and changes nothing. *)
Definition sys_close (t : fd_table) (fd : Z) : Z * fd_table :=
  if (0 <=? fd) && (if in_dec Z.eq_dec fd t then true else false)
  then (0, remove Z.eq_dec fd t)
  else (-1, t).

(** [if (debugger_fd) close(debugger_fd);], lines 155-156.  The result
    of [close] is dropped and [debugger_fd] keeps its value. *)
Definition dbg_close (g : globals) (t : fd_table) : globals * fd_table :=
  if negb (debugger_fd g =? 0) then (g, snd (sys_close t (debugger_fd g)))
  else (g, t).

(** The replies of the operating system to one [dbg_open]: the result
    of [open], of the two [ioctl]s, and what they stored in [desc_size]
    and in [rpt_desc.value]. *)
Record open_replies : Type := mk_open_replies {
  open_result : Z;
  size_ioctl_result : Z;
  desc_size : Z;
  desc_ioctl_result : Z;
  desc_value : Z -> byte
}.

(** Lines 132-149.  [rpt_desc.value] is handed to the parser as the
    memory [desc_value], [rpt_desc.size] as its length. *)
Definition dbg_open (os : open_replies) (g : globals) (t : fd_table)
    : outcome (globals * fd_table) :=
  let g := mk_globals (open_result os) (hid_buffer g) (report_size g) in
  if debugger_fd g <? 0 then Exited OpenFailed else
  let t := open_result os :: t in
  if size_ioctl_result os <? 0 then Exited IoctlFailed else
  if desc_ioctl_result os <? 0 then Exited IoctlFailed else
  match Parser.parse_hid_report_desc (desc_value os) (desc_size os) with
  | Returned n => Returned (mk_globals (debugger_fd g) (hid_buffer g) n, t)
  | Exited e => Exited e
  | Undefined => Undefined
  end.

(** A session: the state that [dbg_open] leaves behind, with the
    exchange buffer at its declared size and a negotiated packet size. *)
Definition session (g : globals) : Prop :=
  len (hid_buffer g) = DBG_MAX_EP_SIZE + 1 /\
  (report_size g = 64 \/ report_size g = 512 \/ report_size g = 1024).

(** Calls of [dbg_dap_cmd] one after the other; each has its own
    arguments and meets its own replies from the device. *)
Record call : Type := mk_call {
  call_device : device;
  call_data : list byte;
  call_resp_size : Z;
  call_req_size : Z
}.

Definition dbg_dap_call (g : globals) (c : call) : exchange :=
  dbg_dap_cmd (call_device c) g (call_data c)
              (call_resp_size c) (call_req_size c).

(** The file-scope variables after all calls of [cs] returned. *)
Fixpoint run (g : globals) (cs : list call) : outcome globals :=
  match cs with
  | [] => Returned g
  | c :: cs' =>
      match result (dbg_dap_call g c) with
      | Returned (_, _, g') => run g' cs'
      | Exited e => Exited e
      | Undefined => Undefined
      end
  end.

End Transport.

(** ** Data for the examples *)

Module Examples.
Import Transport.

(** A CMSIS-DAP report descriptor with 64-byte reports: vendor usage
    page, one collection, Report Count 64 before the Input and before
    the Output item, a one-byte Feature report. *)
Definition dap64 : list byte :=
  [x06; x00; xff;  x09; x01;  xa1; x01;
   x15; x00;  x26; xff; x00;  x75; x08;
   x95; x40;  x09; x01;  x81; x02;
   x95; x40;  x09; x01;  x91; x02;
   x95; x01;  x09; x01;  xb1; x02;
   xc0].

(** The replies of a probe with that descriptor to [dbg_open]. *)
Definition probe64 : open_replies :=
  mk_open_replies 3 0 33 0 (Parser.mem_of dap64 x00).

(** The session that [dbg_open] sets up on that probe. *)
Definition opened64 : globals := mk_globals 3 (hid_buffer initial) 64.

(** An 8-byte request, answered by 2 bytes. *)
Definition long_call : call :=
  mk_call (mk_device 65 (ReadBytes [x05; x01]))
          [x05; x11; x22; x33; x44; x55; x66; x77] 8 8.

(** A 2-byte request, answered by 3 bytes. *)
Definition short_call : call :=
  mk_call (mk_device 65 (ReadBytes [x02; x09; x08])) [x02; xaa] 2 2.

(** The file-scope variables after the calls [cs], if all returned. *)
Definition after (g : globals) (cs : list call) : globals :=
  match run g cs with
  | Returned g' => g'
  | _ => g
  end.

End Examples.

(** ** The accessor of the negotiated size, lines 160-163 *)

Module Lifecycle.
Import Transport.

(** [return report_size;] *)
Definition dbg_get_report_size (g : globals) : Z := report_size g.

End Lifecycle.

(** ** The item classes that the parser tells apart, lines 101-111 *)

Module Items.
Import Parser.

(** [0 == bType && 8 == bTag] *)
Definition is_input (b : byte) : bool :=
  (0 =? bType (u8 b)) && (8 =? bTag (u8 b)).

(** [0 == bType && 9 == bTag] *)
Definition is_output (b : byte) : bool :=
  (0 =? bType (u8 b)) && (9 =? bTag (u8 b)).

(** None of the three tests of the loop body holds for the prefix. *)
Definition is_other (b : byte) : bool :=
  negb (is_report_count b) && negb (is_input b) && negb (is_output b).

(** The same three classes, on decoded items. *)
Definition report_count_item (it : DescriptorSpec.item) : Prop :=
  DescriptorSpec.type it = 1 /\ DescriptorSpec.tag it = 9.

Definition input_item (it : DescriptorSpec.item) : Prop :=
  DescriptorSpec.type it = 0 /\ DescriptorSpec.tag it = 8.

Definition output_item (it : DescriptorSpec.item) : Prop :=
  DescriptorSpec.type it = 0 /\ DescriptorSpec.tag it = 9.

End Items.

(** ** Enumeration of the probes, lines 30-82 *)

Module Enumerate.

(** Modelled from the spec: [debugger_t] is declared in dbg.h, which
    is not part of the sources at hand.  The fields are those that
    lines 64-69 assign and that section 6 of the spec lists: "device
    path/handle, serial string, manufacturer string, product string,
    numeric vendor ID, numeric product ID". *)
Record debugger_t : Type := mk_debugger {
  path : String.string;
  serial : String.string;
  manufacturer : String.string;
  product : String.string;
  vid : Z;
  pid : Z
}.

(** What udev knows of the USB device above a hidraw node: the value
    of each attribute that line 60-69 ask for, [None] where
    [udev_device_get_sysattr_value] gives NULL. *)
Record usb_device : Type := mk_usb_device {
  attr_serial : option String.string;
  attr_manufacturer : option String.string;
  attr_product : option String.string;
  attr_idVendor : option String.string;
  attr_idProduct : option String.string
}.

(** One entry of the scan of the "hidraw" subsystem: the device node,
    and the parent with subsystem "usb" and type "usb_device", each
    [None] where udev gives NULL. *)
Record hidraw_node : Type := mk_hidraw_node {
  devnode : option String.string;
  usb_parent : option usb_device
}.

(** How a call ends. *)
Inductive enumerated : Type :=
| Listed (rsize : Z) (debuggers : list debugger_t)
                 (* returned [rsize]; the caller's array *)
| NoUdev         (* [check(udev, "unable to create udev object")] ended the process *)
| Wild.          (* NULL was given to [strdup] or [strtol], or the array was left *)

(** [strstr(haystack, needle)] is not NULL. *)
Fixpoint strstr (haystack needle : String.string) : bool :=
  String.prefix needle haystack
  || match haystack with
     | String.EmptyString => false
     | String.String _ rest => strstr rest needle
     end.

(** [s ? strdup(s) : "<unknown>"] *)
Definition or_unknown (s : option String.string) : String.string :=
  match s with
  | Some s => s
  | None => "<unknown>"%string
  end.

(** [debuggers[k] = d], [None] outside the array. *)
Definition put (debuggers : list debugger_t) (k : Z) (d : debugger_t)
    : option (list debugger_t) :=
  if (0 <=? k) && (k <? Z.of_nat (length debuggers))
  then Some (firstn (Z.to_nat k) debuggers
             ++ d :: skipn (Z.to_nat (k + 1)) debuggers)
  else None.

Section WithStrtol.

(** [strtol(s, NULL, 16)] as stored in an [int] field; the function
    belongs to the C library. *)
Variable strtol16 : String.string -> Z.

(** Lines 60-69: the entry that is stored for a node.  [strdup] of the
    device node and [strtol] of the two identifiers are given what udev
    returns, unchecked. *)
Definition describe (node : hidraw_node) (parent : usb_device)
    : option debugger_t :=
  match devnode node, attr_idVendor parent, attr_idProduct parent with
  | Some p, Some v, Some i =>
      Some (mk_debugger p
              (or_unknown (attr_serial parent))
              (or_unknown (attr_manufacturer parent))
              (or_unknown (attr_product parent))
              (strtol16 v) (strtol16 i))
  | _, _, _ => None
  end.

(** [udev_list_entry_foreach (dev_list_entry, devices) { ... }], lines
    46-76, over the entries still to come. *)
Fixpoint scan (nodes : list hidraw_node) (size rsize : Z)
    (debuggers : list debugger_t) : enumerated :=
  match nodes with
  | [] => Listed rsize debuggers
  | node :: rest =>
      match usb_parent node with
      | None => scan rest size rsize debuggers
      | Some parent =>
          if rsize <? size then
            match describe node parent with
            | None => Wild
            | Some d =>
                match put debuggers rsize d with
                | None => Wild
                | Some debuggers' =>
                    if strstr (product d) "CMSIS-DAP"%string
                    then scan rest size (rsize + 1) debuggers'
                    else scan rest size rsize debuggers'
                end
            end
          else scan rest size rsize debuggers
      end
  end.

(** [udev] is the scan of the hidraw subsystem, [None] when
    [udev_new] gives NULL. *)
Definition dbg_enumerate (udev : option (list hidraw_node))
    (debuggers : list debugger_t) (size : Z) : enumerated :=
  match udev with
  | None => NoUdev
  | Some nodes => scan nodes size 0 debuggers
  end.

(** The entries of the nodes that have a USB parent and can be
    described, in the order of the scan. *)
Fixpoint candidates (nodes : list hidraw_node) : list debugger_t :=
  match nodes with
  | [] => []
  | node :: rest =>
      match usb_parent node with
      | None => candidates rest
      | Some parent =>
          match describe node parent with
          | None => candidates rest
          | Some d => d :: candidates rest
          end
      end
  end.

(** Those of them whose product string has the marker. *)
Definition probes (nodes : list hidraw_node) : list debugger_t :=
  filter (fun d => strstr (product d) "CMSIS-DAP"%string) (candidates nodes).

(** Every node with a USB parent has a device node and both
    identifiers. *)
Definition described (node : hidraw_node) : Prop :=
  match usb_parent node with
  | None => True
  | Some parent => describe node parent <> None
  end.

End WithStrtol.

(** A hexadecimal reading of the four digits that sysfs holds in
    idVendor and idProduct, for the examples. *)
Definition hex_digit (c : Ascii.ascii) : Z :=
  let n := Z.of_nat (Ascii.nat_of_ascii c) in
  if (48 <=? n) && (n <=? 57) then n - 48
  else if (97 <=? n) && (n <=? 102) then n - 87
  else if (65 <=? n) && (n <=? 70) then n - 55
  else 0.

Fixpoint hex_from (acc : Z) (s : String.string) : Z :=
  match s with
  | String.EmptyString => acc
  | String.String c rest => hex_from (16 * acc + hex_digit c) rest
  end.

Definition hex (s : String.string) : Z := hex_from 0 s.

(** A scan with a keyboard, a node without USB parent, a probe of
    Atmel and one of ARM. *)
Definition keyboard : hidraw_node :=
  mk_hidraw_node (Some "/dev/hidraw0"%string)
    (Some (mk_usb_device None (Some "Logitech"%string)
             (Some "USB Keyboard"%string)
             (Some "046d"%string) (Some "c31c"%string))).

Definition orphan : hidraw_node := mk_hidraw_node None None.

Definition edbg_probe : hidraw_node :=
  mk_hidraw_node (Some "/dev/hidraw1"%string)
    (Some (mk_usb_device (Some "ATML2130021800012345"%string)
             (Some "Atmel Corp."%string)
             (Some "EDBG CMSIS-DAP"%string)
             (Some "03eb"%string) (Some "2111"%string))).

Definition daplink_probe : hidraw_node :=
  mk_hidraw_node (Some "/dev/hidraw2"%string)
    (Some (mk_usb_device None (Some "ARM"%string)
             (Some "DAPLink CMSIS-DAP"%string)
             (Some "0d28"%string) (Some "0204"%string))).

(** The entries that are stored for them, with [hex] for [strtol]. *)
Definition keyboard_entry : debugger_t :=
  mk_debugger "/dev/hidraw0"%string "<unknown>"%string "Logitech"%string
              "USB Keyboard"%string 1133 49948.

Definition edbg_entry : debugger_t :=
  mk_debugger "/dev/hidraw1"%string "ATML2130021800012345"%string
              "Atmel Corp."%string "EDBG CMSIS-DAP"%string 1003 8465.

Definition daplink_entry : debugger_t :=
  mk_debugger "/dev/hidraw2"%string "<unknown>"%string "ARM"%string
              "DAPLink CMSIS-DAP"%string 3368 516.

Definition blank : debugger_t :=
  mk_debugger ""%string ""%string ""%string ""%string 0 0.

End Enumerate.

(** * Properties of the descriptor parser *)

Module ParserFacts.
Import Parser DescriptorSpec Abstraction.

(** ** Bit operations against arithmetic *)

Lemma lor_shiftl_add a b k :
  0 <= k -> 0 <= a < 2 ^ k -> Z.lor a (Z.shiftl b k) = a + Z.shiftl b k.
Proof.
  intros Hk Ha.
  assert (Hdisj : Z.land a (Z.shiftl b k) = 0).
  { apply Z.bits_inj'. intros m Hm.
    rewrite Z.land_spec, Z.bits_0.
    destruct (Z.lt_ge_cases m k) as [Hlt | Hge].
    - rewrite Z.shiftl_spec_low by exact Hlt. apply andb_false_r.
    - rewrite <- (Z.mod_small a (2 ^ k)) by exact Ha.
      rewrite Z.mod_pow2_bits_high by lia. reflexivity. }
  rewrite (Z.add_nocarry_lxor _ _ Hdisj).
  symmetry. apply Z.lxor_lor. exact Hdisj.
Qed.

Lemma u8_range (b : byte) : 0 <= u8 b < 256.
Proof.
  unfold u8. pose proof (Byte.to_N_bounded b). lia.
Qed.

Lemma header_tag (b : byte) : bTag (u8 b) = tag_of b.
Proof. destruct b; reflexivity. Qed.

Lemma header_type (b : byte) : bType (u8 b) = type_of b.
Proof. destruct b; reflexivity. Qed.

Lemma header_size (b : byte) :
  Z.to_nat (bSize (u8 b)) = payload_length (size_code b).
Proof. destruct b; reflexivity. Qed.

Lemma header_size_Z (b : byte) :
  bSize (u8 b) = Z.of_nat (payload_length (size_code b)).
Proof. destruct b; reflexivity. Qed.

(** ** The inner loop decodes little-endian *)

Lemma count_loop_spec data i n : forall j st,
  0 <= j -> j + Z.of_nat n <= 4 -> 0 <= count st < 2 ^ (8 * j) ->
  count_loop data i n j st =
  mk_pstate (count st + 2 ^ (8 * j) * little_endian (bytes_at data (i + j) n))
            (input st) (output st) (loads st ++ offsets (i + j) n).
Proof.
  induction n as [| n IH]; intros j st Hj Hn Hc; cbn [count_loop bytes_at little_endian offsets].
  - rewrite Z.mul_0_r, Z.add_0_r, app_nil_r. destruct st; reflexivity.
  - pose proof (u8_range (data (i + j))) as Hb.
    assert (Hpow : 2 ^ (8 * (j + 1)) = 2 ^ (8 * j) * 256).
    { replace (8 * (j + 1)) with (8 * j + 8) by lia.
      rewrite Z.pow_add_r by lia. reflexivity. }
    assert (Hpos : 0 < 2 ^ (8 * j)) by (apply Z.pow_pos_nonneg; lia).
    assert (Hle : 2 ^ (8 * j) * 256 <= 2 ^ 32).
    { rewrite <- Hpow. apply Z.pow_le_mono_r; lia. }
    assert (Hsh : Z.shiftl (u8 (data (i + j))) (j * 8)
                  = u8 (data (i + j)) * 2 ^ (8 * j)).
    { rewrite Z.shiftl_mul_pow2 by lia. f_equal. f_equal. lia. }
    assert (Hstep : Z.lor (count st) (to_u32 (Z.shiftl (u8 (data (i + j))) (j * 8)))
                    = count st + u8 (data (i + j)) * 2 ^ (8 * j)).
    { unfold to_u32. rewrite Z.mod_small by (rewrite Hsh; nia).
      rewrite <- Hsh. replace (j * 8) with (8 * j) by lia.
      apply lor_shiftl_add; lia. }
    rewrite IH; cbn [count input output loads].
    + rewrite Hstep, Hpow, <- app_assoc. cbn [app].
      replace (i + (j + 1)) with (i + j + 1) by lia.
      f_equal. ring.
    + lia.
    + lia.
    + rewrite Hstep, Hpow. nia.
Qed.

(** ** One iteration against one item of the specification *)

Lemma item_step_dispatch data i st :
  sizes_of (snd (item_step data i st)) =
  dispatch (sizes_of st)
    (item_at data i
       (bytes_at data (i + 1) (payload_length (size_code (data i))))).
Proof.
  unfold item_step, dispatch, item_at, sizes_of.
  cbn [snd tag type value count input output loads].
  rewrite header_type, header_tag, header_size.
  rewrite (Z.eqb_sym 1), (Z.eqb_sym 9), (Z.eqb_sym 0), (Z.eqb_sym 8).
  destruct ((type_of (data i) =? 1) && (tag_of (data i) =? 9)).
  - rewrite count_loop_spec; cbn [count input output loads].
    + rewrite Z.add_0_r. cbn. destruct (little_endian _); reflexivity.
    + lia.
    + pose proof (header_size_Z (data i)) as H.
      pose proof (bSize_range (data i)). lia.
    + cbn. lia.
  - destruct ((type_of (data i) =? 0) && (tag_of (data i) =? 8)); [reflexivity |].
    destruct ((type_of (data i) =? 0) && (tag_of (data i) =? 9)); reflexivity.
Qed.

(** What an item's payload holds does not reach the two snapshots. *)
Lemma dispatch_snapshots s t ty v v' :
  input_size (dispatch s (mk_item t ty v)) = input_size (dispatch s (mk_item t ty v')) /\
  output_size (dispatch s (mk_item t ty v)) = output_size (dispatch s (mk_item t ty v')).
Proof.
  unfold dispatch; cbn [tag type value].
  destruct ((ty =? 1) && (t =? 9)); [split; reflexivity |].
  destruct ((ty =? 0) && (t =? 8)); [split; reflexivity |].
  destruct ((ty =? 0) && (t =? 9)); split; reflexivity.
Qed.


(** ** Windows of memory *)

Lemma bytes_at_length data n : forall i, length (bytes_at data i n) = n.
Proof.
  induction n as [| n IH]; intros i; cbn; [reflexivity |].
  rewrite IH. reflexivity.
Qed.

Lemma firstn_bytes_at data m : forall i n,
  (m <= n)%nat -> firstn m (bytes_at data i n) = bytes_at data i m.
Proof.
  induction m as [| m IH]; intros i n Hle; [reflexivity |].
  destruct n as [| n]; [lia |].
  cbn. rewrite IH by lia. reflexivity.
Qed.

Lemma skipn_bytes_at data m : forall i n,
  (m <= n)%nat ->
  skipn m (bytes_at data i n) = bytes_at data (i + Z.of_nat m) (n - m).
Proof.
  induction m as [| m IH]; intros i n Hle.
  - cbn [skipn]. rewrite Z.add_0_r, Nat.sub_0_r. reflexivity.
  - destruct n as [| n]; [lia |].
    cbn [bytes_at skipn]. rewrite IH by lia.
    f_equal. lia.
Qed.

Lemma bytes_at_ext data data' n : forall i,
  (forall k, i <= k < i + Z.of_nat n -> data' k = data k) ->
  bytes_at data' i n = bytes_at data i n.
Proof.
  induction n as [| n IH]; intros i H; [reflexivity |].
  cbn. rewrite H by lia. rewrite IH; [reflexivity |].
  intros k Hk. apply H. lia.
Qed.

Lemma window_done data size i : size <= i -> window data size i = [].
Proof.
  intros H. unfold window. replace (Z.to_nat (size - i)) with O by lia.
  reflexivity.
Qed.

Lemma window_cons data size i :
  i < size -> window data size i = data i :: window data size (i + 1).
Proof.
  intros H. unfold window.
  replace (Z.to_nat (size - i)) with (S (Z.to_nat (size - (i + 1)))) by lia.
  reflexivity.
Qed.

Lemma window_skipn data size i (m : nat) :
  skipn m (window data size i) = window data size (i + Z.of_nat m).
Proof.
  unfold window.
  destruct (Nat.le_gt_cases m (Z.to_nat (size - i))) as [Hle | Hgt].
  - rewrite skipn_bytes_at by exact Hle. f_equal. lia.
  - rewrite skipn_all2 by (rewrite bytes_at_length; lia).
    replace (Z.to_nat (size - (i + Z.of_nat m))) with O by lia.
    reflexivity.
Qed.

(** ** The outer loop *)

Lemma parse_loop_done data size i st :
  size <= i -> parse_loop data size i st = st.
Proof.
  intros H. simp parse_loop.
  destruct (Z_lt_dec i size); [lia | reflexivity].
Qed.

Lemma parse_loop_step data size i st :
  i < size ->
  parse_loop data size i st =
  parse_loop data size (fst (item_step data i st)) (snd (item_step data i st)).
Proof.
  intros H. rewrite parse_loop_equation_1.
  destruct (Z_lt_dec i size); [reflexivity | lia].
Qed.

(** Induction along the iterations of the outer loop. *)
Lemma outer_loop_ind data size (P : Z -> pstate -> Prop) :
  (forall i st, size <= i -> P i st) ->
  (forall i st, i < size ->
     P (fst (item_step data i st)) (snd (item_step data i st)) -> P i st) ->
  forall i st, P i st.
Proof.
  intros Hdone Hstep i.
  remember (Z.to_nat (size - i)) as m eqn:Hm.
  revert i Hm. induction m as [m IH] using lt_wf_ind. intros i Hm st.
  destruct (Z_lt_dec i size) as [Hlt | Hge].
  - apply Hstep; [exact Hlt |].
    apply (IH (Z.to_nat (size - fst (item_step data i st)))); [| reflexivity].
    rewrite item_step_index. pose proof (bSize_range (data i)). lia.
  - apply Hdone. lia.
Qed.

(** The loop computes the snapshots that the specification resolves
    from the bytes below [size]. *)
Lemma parse_loop_refines data size : forall i st,
  input_size (fold_left dispatch (items (window data size i)) (sizes_of st))
    = input (parse_loop data size i st) /\
  output_size (fold_left dispatch (items (window data size i)) (sizes_of st))
    = output (parse_loop data size i st).
Proof.
  apply (outer_loop_ind data size
    (fun i st =>
       input_size (fold_left dispatch (items (window data size i)) (sizes_of st))
         = input (parse_loop data size i st) /\
       output_size (fold_left dispatch (items (window data size i)) (sizes_of st))
         = output (parse_loop data size i st))).
  - intros i st Hge. rewrite window_done, parse_loop_done by exact Hge.
    simp items. split; reflexivity.
  - intros i st Hlt IH.
    rewrite parse_loop_step by exact Hlt.
    rewrite window_cons by exact Hlt. simp items. cbn [fold_left].
    rewrite window_skipn.
    rewrite item_step_index, header_size_Z in IH.
    rewrite item_step_dispatch in IH.
    rewrite item_step_index, header_size_Z.
    set (n := payload_length (size_code (data i))) in *.
    destruct (Z_le_dec (i + 1 + Z.of_nat n) size) as [Hfit | Hcut].
    + (* the payload lies below [size] *)
      replace (firstn n (window data size (i + 1)))
        with (bytes_at data (i + 1) n)
        by (unfold window; rewrite firstn_bytes_at by lia; reflexivity).
      exact IH.
    + (* the payload is cut off: both sides stop after this item *)
      rewrite window_done in * by lia.
      rewrite parse_loop_done in * by lia.
      simp items in *. cbn [fold_left] in *.
      unfold item_at in IH.
      destruct (dispatch_snapshots (sizes_of st) (tag_of (data i)) (type_of (data i))
                  (little_endian (firstn n (window data size (i + 1))))
                  (little_endian (bytes_at data (i + 1) n))) as [Hi Ho].
      destruct IH as [IHi IHo].
      split; [rewrite <- IHi | rewrite <- IHo]; assumption.
Qed.


Lemma descriptor_window data size : descriptor data size = window data size 0.
Proof. unfold descriptor, window. rewrite Z.sub_0_r. reflexivity. Qed.

Lemma parse_loop_resolve data size :
  input (parse_loop data size 0 init) = input_size (resolve (descriptor data size)) /\
  output (parse_loop data size 0 init) = output_size (resolve (descriptor data size)).
Proof.
  unfold resolve. rewrite descriptor_window.
  destruct (parse_loop_refines data size 0 init) as [Hi Ho].
  split; symmetry; assumption.
Qed.

Lemma supported_dec n : supported n <-> In n [64; 512; 1024].
Proof. unfold supported. cbn. intuition. Qed.

(** [parse_hid_report_desc] refines the parser of the specification. *)
Lemma parse_refines data size :
  parse_hid_report_desc data size = DescriptorSpec.parse (descriptor data size).
Proof.
  unfold parse_hid_report_desc, validate, DescriptorSpec.parse.
  destruct (parse_loop_resolve data size) as [Hi Ho].
  rewrite <- Hi, <- Ho.
  set (a := input (parse_loop data size 0 init)).
  set (b := output (parse_loop data size 0 init)).
  destruct (Z.eq_dec a b) as [Heq | Hne].
  - rewrite (proj2 (Z.eqb_eq a b) Heq). cbn [negb].
    destruct (in_dec Z.eq_dec a [64; 512; 1024]) as [Hin | Hout].
    + cbn in Hin.
      destruct Hin as [H | [H | [H | []]]]; rewrite <- H; reflexivity.
    + assert (H64 : (64 =? a) = false) by (apply Z.eqb_neq; cbn in Hout; tauto).
      assert (H512 : (512 =? a) = false) by (apply Z.eqb_neq; cbn in Hout; tauto).
      assert (H1024 : (1024 =? a) = false) by (apply Z.eqb_neq; cbn in Hout; tauto).
      rewrite H64, H512, H1024. reflexivity.
  - rewrite (proj2 (Z.eqb_neq a b) Hne). reflexivity.
Qed.

Lemma parse_returned_supported data size v :
  parse_hid_report_desc data size = Returned v -> supported v.
Proof.
  rewrite parse_refines. unfold DescriptorSpec.parse.
  destruct (Z.eq_dec _ _); [| discriminate].
  destruct (in_dec Z.eq_dec _ _) as [Hin | _]; [| discriminate].
  intros H. injection H as <-. apply supported_dec. exact Hin.
Qed.

(** ** The offsets that are loaded *)

Lemma offsets_bound i n : Forall (fun k => i <= k < i + Z.of_nat n) (offsets i n).
Proof.
  revert i. induction n as [| n IH]; intros i; cbn [offsets]; constructor.
  - lia.
  - eapply Forall_impl; [| apply IH]. cbn. intros k Hk. lia.
Qed.

Lemma item_step_loads data i st :
  loads (snd (item_step data i st)) =
  loads st ++ i :: (if is_report_count (data i)
                    then offsets (i + 1) (Z.to_nat (bSize (u8 (data i))))
                    else []).
Proof.
  unfold item_step, is_report_count. cbn [snd count input output loads].
  destruct ((1 =? bType (u8 (data i))) && (9 =? bTag (u8 (data i)))).
  - rewrite count_loop_spec; cbn [count input output loads].
    + rewrite Z.add_0_r, <- app_assoc. reflexivity.
    + lia.
    + pose proof (bSize_range (data i)). lia.
    + cbn. lia.
  - destruct ((0 =? bType (u8 (data i))) && (8 =? bTag (u8 (data i)))); [reflexivity |].
    destruct ((0 =? bType (u8 (data i))) && (9 =? bTag (u8 (data i)))); reflexivity.
Qed.

Lemma item_step_loads_bound data i st (bound : Z) :
  0 <= i -> i + 1 + bSize (u8 (data i)) <= bound ->
  Forall (fun k => 0 <= k < bound) (loads st) ->
  Forall (fun k => 0 <= k < bound) (loads (snd (item_step data i st))).
Proof.
  intros Hi Hb Hst. rewrite item_step_loads.
  pose proof (bSize_range (data i)) as Hr.
  apply Forall_app. split; [exact Hst |].
  constructor; [lia |].
  destruct (is_report_count (data i)); [| constructor].
  eapply Forall_impl; [| apply offsets_bound]. cbn. intros k Hk. lia.
Qed.

Lemma parse_loop_loads_slack data size : forall i st,
  0 <= i ->
  Forall (fun k => 0 <= k < size + 4) (loads st) ->
  Forall (fun k => 0 <= k < size + 4) (loads (parse_loop data size i st)).
Proof.
  apply (outer_loop_ind data size
    (fun i st => 0 <= i ->
       Forall (fun k => 0 <= k < size + 4) (loads st) ->
       Forall (fun k => 0 <= k < size + 4) (loads (parse_loop data size i st)))).
  - intros i st Hge _ Hst. rewrite parse_loop_done by exact Hge. exact Hst.
  - intros i st Hlt IH Hi Hst.
    rewrite parse_loop_step by exact Hlt.
    pose proof (bSize_range (data i)) as Hr.
    apply IH.
    + rewrite item_step_index. lia.
    + apply item_step_loads_bound; [lia | lia | exact Hst].
Qed.

Lemma parse_loop_loads_complete data size : forall i st,
  0 <= i ->
  complete (window data size i) = true ->
  Forall (fun k => 0 <= k < size) (loads st) ->
  Forall (fun k => 0 <= k < size) (loads (parse_loop data size i st)).
Proof.
  apply (outer_loop_ind data size
    (fun i st => 0 <= i ->
       complete (window data size i) = true ->
       Forall (fun k => 0 <= k < size) (loads st) ->
       Forall (fun k => 0 <= k < size) (loads (parse_loop data size i st)))).
  - intros i st Hge _ _ Hst. rewrite parse_loop_done by exact Hge. exact Hst.
  - intros i st Hlt IH Hi Hc Hst.
    rewrite parse_loop_step by exact Hlt.
    rewrite window_cons in Hc by exact Hlt. simp complete in Hc.
    apply andb_true_iff in Hc. destruct Hc as [Hfit Hrest].
    apply Nat.leb_le in Hfit.
    unfold window in Hfit. rewrite bytes_at_length in Hfit.
    rewrite window_skipn in Hrest.
    pose proof (header_size_Z (data i)) as Hs.
    apply IH.
    + rewrite item_step_index. lia.
    + rewrite item_step_index, Hs. exact Hrest.
    + apply item_step_loads_bound; [lia | lia | exact Hst].
Qed.

End ParserFacts.

(** * Properties of the framed transport *)

Module TransportFacts.
Import Transport.

(** ** Arrays *)

Lemma overwrite_length buf pos seg :
  (pos + length seg <= length buf)%nat ->
  length (overwrite buf pos seg) = length buf.
Proof.
  intros H. unfold overwrite.
  rewrite !length_app, length_firstn, length_skipn. lia.
Qed.

Lemma nth_error_overwrite buf pos seg k :
  (pos + length seg <= length buf)%nat ->
  nth_error (overwrite buf pos seg) k =
  if (pos <=? k)%nat && (k <? pos + length seg)%nat
  then nth_error seg (k - pos)
  else nth_error buf k.
Proof.
  intros H. unfold overwrite.
  assert (Hf : length (firstn pos buf) = pos) by (rewrite length_firstn; lia).
  rewrite nth_error_app, Hf.
  destruct (Nat.ltb_spec k pos) as [Hlt | Hge].
  - rewrite nth_error_firstn.
    destruct (Nat.ltb_spec k pos); [| lia].
    destruct (Nat.leb_spec pos k); [lia | reflexivity].
  - destruct (Nat.leb_spec pos k); [| lia]. cbn [andb].
    rewrite nth_error_app.
    destruct (Nat.ltb_spec (k - pos) (length seg));
      destruct (Nat.ltb_spec k (pos + length seg)); try lia; [reflexivity |].
    rewrite nth_error_skipn. f_equal. lia.
Qed.

Lemma overwrite_front buf seg :
  overwrite buf 0 seg = seg ++ skipn (length seg) buf.
Proof. reflexivity. Qed.

Lemma agree_firstn n a b : agree n a b -> firstn n a = firstn n b.
Proof.
  intros [_ H]. apply nth_error_ext. intros k.
  rewrite !nth_error_firstn.
  destruct (Nat.ltb_spec k n); [apply H; assumption | reflexivity].
Qed.

Lemma agree_overwrite n a b pos seg :
  agree n a b -> (pos + length seg <= length a)%nat ->
  agree n (overwrite a pos seg) (overwrite b pos seg).
Proof.
  intros [Hlen H] Hfit. split.
  - rewrite !overwrite_length by lia. exact Hlen.
  - intros k Hk. rewrite !nth_error_overwrite by lia.
    rewrite (H k Hk). reflexivity.
Qed.

Lemma agree_overwrite_front a b seg :
  length a = length b -> (length seg <= length a)%nat ->
  agree (length seg) (overwrite a 0 seg) (overwrite b 0 seg).
Proof.
  intros Hlen Hfit. split.
  - rewrite !overwrite_length by (cbn; lia). exact Hlen.
  - intros k Hk. rewrite !nth_error_overwrite by (cbn; lia).
    cbn [Nat.leb andb Nat.add].
    destruct (Nat.ltb_spec k (length seg)); [reflexivity | lia].
Qed.

Lemma agree_le n m a b : (m <= n)%nat -> agree n a b -> agree m a b.
Proof.
  intros Hle [Hlen H]. split; [exact Hlen |].
  intros k Hk. apply H. lia.
Qed.

(** ** [fill_frame] *)

Lemma fill_frame_eq g data req :
  fill_frame g data req =
  if fill_in_bounds (len (hid_buffer g)) (len data) (report_size g) req
  then Some (filled (hid_buffer g) data (report_size g) req)
  else None.
Proof.
  unfold fill_frame, fill_in_bounds, filled, memset, store, memcpy, bind.
  set (hid := hid_buffer g). set (rs := report_size g).
  destruct (Z.leb_spec 0 (rs + 1)) as [H1 | H1]; [| reflexivity].
  destruct (Z.leb_spec (rs + 1) (len hid)) as [H2 | H2]; [| reflexivity].
  cbn [andb].
  assert (L1 : len (overwrite hid 0 (repeat xff (Z.to_nat (rs + 1)))) = len hid).
  { unfold len in *. rewrite overwrite_length; [reflexivity |].
    rewrite repeat_length. cbn. lia. }
  rewrite L1.
  change (0 <=? 0) with true. cbn [andb].
  destruct (Z.ltb_spec 0 (len hid)) as [H3 | H3]; [| reflexivity].
  assert (L2 : len (overwrite (overwrite hid 0 (repeat xff (Z.to_nat (rs + 1))))
                      (Z.to_nat 0) [x00]) = len hid).
  { unfold len in *. rewrite overwrite_length; [exact L1 |].
    cbn [length Z.to_nat Nat.add]. lia. }
  rewrite L2.
  change (0 <=? 1) with true. cbn [andb].
  destruct (Z.leb_spec 0 req) as [H4 | H4]; [| reflexivity].
  destruct (Z.leb_spec (1 + req) (len hid)) as [H5 | H5]; [| reflexivity].
  rewrite Z.add_0_l.
  destruct (Z.leb_spec req (len data)) as [H6 | H6]; reflexivity.
Qed.

Lemma fill_in_bounds_true hid_len data_len rs req :
  fill_in_bounds hid_len data_len rs req = true <->
  0 <= rs + 1 <= hid_len /\ 0 < hid_len /\ 0 <= req /\
  1 + req <= hid_len /\ req <= data_len.
Proof.
  unfold fill_in_bounds.
  rewrite !andb_true_iff, !Z.leb_le, Z.ltb_lt. tauto.
Qed.

Lemma filled_length hid data rs req :
  fill_in_bounds (len hid) (len data) rs req = true ->
  length (filled hid data rs req) = length hid.
Proof.
  intros H. apply fill_in_bounds_true in H. unfold len in H.
  unfold filled.
  rewrite !overwrite_length; try reflexivity.
  - rewrite repeat_length. cbn. lia.
  - rewrite overwrite_length by (rewrite repeat_length; cbn; lia). cbn. lia.
  - rewrite !overwrite_length.
    + rewrite length_firstn. lia.
    + rewrite repeat_length. cbn. lia.
    + rewrite overwrite_length by (rewrite repeat_length; cbn; lia). cbn. lia.
Qed.

(** The bytes handed to [write] do not depend on what [hid_buffer]
    held before. *)
Lemma filled_agree hid hid' data rs req :
  length hid = length hid' ->
  fill_in_bounds (len hid) (len data) rs req = true ->
  agree (Z.to_nat (rs + 1)) (filled hid data rs req) (filled hid' data rs req).
Proof.
  intros Hlen H. apply fill_in_bounds_true in H. unfold len in H.
  unfold filled.
  assert (A1 : agree (Z.to_nat (rs + 1))
                 (overwrite hid 0 (repeat xff (Z.to_nat (rs + 1))))
                 (overwrite hid' 0 (repeat xff (Z.to_nat (rs + 1))))).
  { pose proof (agree_overwrite_front hid hid' (repeat xff (Z.to_nat (rs + 1)))) as A.
    rewrite repeat_length in A. apply A; [exact Hlen | lia]. }
  assert (L1 : length (overwrite hid 0 (repeat xff (Z.to_nat (rs + 1)))) = length hid).
  { apply overwrite_length. rewrite repeat_length. cbn. lia. }
  apply agree_overwrite.
  - apply agree_overwrite; [exact A1 |]. rewrite L1. cbn. lia.
  - rewrite overwrite_length by (rewrite L1; cbn; lia).
    rewrite L1, length_firstn. lia.
Qed.

(** With a request of at most [rs] bytes the array is the report ID,
    the request, the padding, and what lay beyond the frame. *)
Lemma filled_shape hid data rs req :
  0 <= req <= rs -> rs + 1 <= len hid -> req <= len data ->
  filled hid data rs req =
  x00 :: firstn (Z.to_nat req) data
      ++ repeat xff (Z.to_nat (rs - req))
      ++ skipn (Z.to_nat (rs + 1)) hid.
Proof.
  intros Hreq Hrs Hdata. unfold len in *. unfold filled.
  replace (Z.to_nat (rs + 1)) with (S (Z.to_nat rs)) by lia.
  unfold overwrite. cbn [firstn skipn app repeat length Nat.add].
  rewrite repeat_length.
  assert (Hseg : length (firstn (Z.to_nat req) data) = Z.to_nat req)
    by (rewrite length_firstn; lia).
  rewrite Hseg.
  f_equal. f_equal.
  replace (Z.to_nat rs) with (Z.to_nat req + Z.to_nat (rs - req))%nat at 1 by lia.
  rewrite repeat_app, <- app_assoc.
  rewrite skipn_app, repeat_length, Nat.sub_diag. cbn [skipn].
  rewrite skipn_all2 by (rewrite repeat_length; lia).
  reflexivity.
Qed.

(** ** Lines 176-192 in closed form *)

Lemma receive_eq dev g cmd hid data resp_size :
  0 <= report_size g + 1 <= len hid ->
  receive dev g cmd hid data resp_size =
  if write_result dev <? 0 then Exited WriteFailed else
  match delivered (read_result dev) (report_size g + 1) with
  | None => Exited ReadFailed
  | Some [] => Exited EmptyResponse
  | Some (b0 :: payload) =>
      if negb (Byte.eqb b0 cmd) then Exited (InvalidResponse cmd b0)
      else
        let res := len payload in
        let k := if resp_size <? res then resp_size else res in
        if (0 <=? k) && (k <=? len data)
        then Returned (res,
                       firstn (Z.to_nat k) payload ++ skipn (Z.to_nat k) data,
                       mk_globals (debugger_fd g)
                                  (overwrite hid 0 (b0 :: payload))
                                  (report_size g))
        else Undefined
  end.
Proof.
  intros Hfit. unfold receive, sys_read.
  destruct (write_result dev <? 0); [reflexivity |].
  destruct (delivered (read_result dev) (report_size g + 1)) as [got |] eqn:Hgot;
    [| reflexivity].
  assert (Hlen : len got <= report_size g + 1).
  { unfold delivered in Hgot. destruct (read_result dev); [discriminate |].
    injection Hgot as <-. unfold len. rewrite length_firstn. lia. }
  destruct got as [| b0 payload]; [reflexivity |].
  unfold len in Hlen, Hfit. cbn [length] in Hlen.
  replace (len (b0 :: payload) <? 0) with false
    by (symmetry; apply Z.ltb_ge; unfold len; lia).
  replace (len (b0 :: payload) =? 0) with false
    by (symmetry; apply Z.eqb_neq; unfold len; cbn [length]; lia).
  rewrite overwrite_front. cbn [app load Z.leb Z.to_nat nth_error Z.compare].
  destruct (negb (Byte.eqb b0 cmd)); [reflexivity |].
  replace (len (b0 :: payload) - 1) with (len payload)
    by (unfold len; cbn [length]; lia).
  cbn zeta.
  set (k := if resp_size <? len payload then resp_size else len payload).
  assert (Hk : k <= len payload)
    by (subst k; destruct (Z.ltb_spec resp_size (len payload)); lia).
  unfold memcpy.
  change (0 <=? 0) with true. change (0 <=? 1) with true. cbn [andb].
  rewrite Z.add_0_l.
  destruct (Z.leb_spec 0 k) as [Hk0 | Hk0]; [| reflexivity].
  destruct (Z.leb_spec k (len data)) as [Hkd | Hkd]; [| reflexivity].
  cbn [andb].
  set (tail := skipn (length (b0 :: payload)) hid).
  assert (Hhid : len (b0 :: payload ++ tail) = len hid).
  { subst tail. unfold len. cbn [length].
    rewrite length_app, length_skipn. cbn [length]. lia. }
  rewrite Hhid.
  replace (1 + k <=? len hid) with true
    by (symmetry; apply Z.leb_le; unfold len in *; lia).
  change (Z.to_nat 1) with 1%nat. change (Z.to_nat 0) with 0%nat.
  cbn [skipn].
  assert (Hseg : firstn (Z.to_nat k) (payload ++ tail) = firstn (Z.to_nat k) payload).
  { rewrite firstn_app.
    replace (Z.to_nat k - length payload)%nat with 0%nat by (unfold len in Hk; lia).
    cbn [firstn]. apply app_nil_r. }
  rewrite Hseg, overwrite_front.
  rewrite length_firstn.
  replace (Nat.min (Z.to_nat k) (length payload)) with (Z.to_nat k)
    by (unfold len in Hk; lia).
  reflexivity.
Qed.

Lemma delivered_length r n got :
  0 <= n -> delivered r n = Some got -> len got <= n.
Proof.
  intros Hn H. unfold delivered in H. destruct r; [discriminate |].
  injection H as <-. unfold len. rewrite length_firstn. lia.
Qed.

Lemma min_if a b : (if a <? b then a else b) = Z.min a b.
Proof. destruct (Z.ltb_spec a b); lia. Qed.

(** ** [dbg_dap_cmd] *)

Lemma dbg_dap_cmd_eq dev g data resp_size req_size :
  dbg_dap_cmd dev g data resp_size req_size =
  match load data 0 with
  | Some cmd =>
      if fill_in_bounds (len (hid_buffer g)) (len data) (report_size g) req_size
      then
        let hid := filled (hid_buffer g) data (report_size g) req_size in
        mk_exchange (Some (firstn (Z.to_nat (report_size g + 1)) hid))
                    (receive dev g cmd hid data resp_size)
      else mk_exchange None Undefined
  | None => mk_exchange None Undefined
  end.
Proof.
  unfold dbg_dap_cmd. rewrite fill_frame_eq.
  destruct (load data 0); [| reflexivity].
  destruct (fill_in_bounds _ _ _ _); reflexivity.
Qed.

Lemma filled_fits hid data rs req :
  fill_in_bounds (len hid) (len data) rs req = true ->
  0 <= rs + 1 <= len (filled hid data rs req).
Proof.
  intros H. pose proof (filled_length _ _ _ _ H) as Hl.
  apply fill_in_bounds_true in H. unfold len in *. lia.
Qed.

(** What a call that returns has done. *)
Lemma dbg_dap_cmd_returned dev g data resp_size req_size res data' g' :
  result (dbg_dap_cmd dev g data resp_size req_size) = Returned (res, data', g') ->
  exists cmd payload,
    load data 0 = Some cmd /\
    fill_in_bounds (len (hid_buffer g)) (len data) (report_size g) req_size = true /\
    0 <= write_result dev /\
    delivered (read_result dev) (report_size g + 1) = Some (cmd :: payload) /\
    res = len payload /\
    0 <= Z.min resp_size res <= len data /\
    data' = firstn (Z.to_nat (Z.min resp_size res)) payload
            ++ skipn (Z.to_nat (Z.min resp_size res)) data /\
    g' = mk_globals (debugger_fd g)
           (overwrite (filled (hid_buffer g) data (report_size g) req_size) 0
                      (cmd :: payload))
           (report_size g).
Proof.
  rewrite dbg_dap_cmd_eq.
  destruct (load data 0) as [cmd |]; [| discriminate].
  destruct (fill_in_bounds _ _ _ _) eqn:Hb; [| discriminate].
  cbn [result]. rewrite receive_eq by (apply filled_fits; exact Hb).
  destruct (Z.ltb_spec (write_result dev) 0) as [Hw | Hw]; [discriminate |].
  destruct (delivered (read_result dev) (report_size g + 1))
    as [[| b0 payload] |]; try discriminate.
  destruct (Byte.eqb b0 cmd) eqn:Hcmd; [| discriminate].
  apply Byte.byte_dec_bl in Hcmd. subst b0.
  cbn [negb]. cbn zeta. rewrite min_if.
  destruct (Z.leb_spec 0 (Z.min resp_size (len payload))) as [Hk0 | Hk0];
    [| discriminate].
  destruct (Z.leb_spec (Z.min resp_size (len payload)) (len data)) as [Hkd | Hkd];
    [| discriminate].
  cbn [andb]. intros Heq. injection Heq as <- <- <-.
  exists cmd, payload. repeat split; try reflexivity; assumption.
Qed.

(** A call that returns keeps the negotiated size and the size of the
    exchange buffer. *)
Lemma dbg_dap_cmd_shape dev g data resp_size req_size res data' g' :
  result (dbg_dap_cmd dev g data resp_size req_size) = Returned (res, data', g') ->
  report_size g' = report_size g /\
  length (hid_buffer g') = length (hid_buffer g).
Proof.
  intros H. apply dbg_dap_cmd_returned in H.
  destruct H as (cmd & payload & _ & Hb & _ & Hd & _ & _ & _ & ->).
  cbn [report_size hid_buffer]. split; [reflexivity |].
  pose proof (filled_fits _ _ _ _ Hb) as Hf.
  apply delivered_length in Hd; [| lia].
  rewrite overwrite_length by (unfold len in *; lia).
  apply filled_length. exact Hb.
Qed.

Lemma run_shape cs : forall g g',
  run g cs = Returned g' ->
  report_size g' = report_size g /\
  length (hid_buffer g') = length (hid_buffer g).
Proof.
  induction cs as [| c cs IH]; intros g g' H; cbn [run] in H.
  - injection H as <-. split; reflexivity.
  - destruct (result (dbg_dap_call g c)) as [[[res d] g1] | e |] eqn:Hc;
      try discriminate.
    apply dbg_dap_cmd_shape in Hc. apply IH in H.
    destruct Hc as [Hc1 Hc2]. destruct H as [H1 H2].
    split; congruence.
Qed.

(** The frame and the answer of a call do not depend on what
    [hid_buffer] held when the call was made. *)
Lemma dbg_dap_cmd_independent dev g1 g2 data resp_size req_size :
  report_size g1 = report_size g2 ->
  length (hid_buffer g1) = length (hid_buffer g2) ->
  written (dbg_dap_cmd dev g1 data resp_size req_size)
    = written (dbg_dap_cmd dev g2 data resp_size req_size) /\
  answer (dbg_dap_cmd dev g1 data resp_size req_size)
    = answer (dbg_dap_cmd dev g2 data resp_size req_size).
Proof.
  intros Hrs Hlen. unfold answer. rewrite !dbg_dap_cmd_eq.
  destruct (load data 0) as [cmd |]; [| split; reflexivity].
  unfold len. rewrite <- Hrs, <- Hlen. fold (len (hid_buffer g1)).
  destruct (fill_in_bounds _ _ _ _) eqn:Hb; [| split; reflexivity].
  cbn [written result]. split.
  - f_equal. apply agree_firstn. apply filled_agree; assumption.
  - assert (Hb2 : fill_in_bounds (len (hid_buffer g2)) (len data)
                    (report_size g2) req_size = true).
    { unfold len. rewrite <- Hrs, <- Hlen. exact Hb. }
    rewrite !receive_eq.
    + rewrite <- Hrs.
      destruct (write_result dev <? 0); [reflexivity |].
      destruct (delivered _ _) as [[| b0 payload] |]; try reflexivity.
      destruct (negb (Byte.eqb b0 cmd)); [reflexivity |].
      cbn zeta.
      destruct ((0 <=? _) && (_ <=? len data)); reflexivity.
    + rewrite Hrs. apply filled_fits. exact Hb2.
    + apply filled_fits. exact Hb.
Qed.

(** ** [dbg_open] *)

(** What [dbg_open] returns is a session on the descriptor it opened. *)
Lemma dbg_open_session os g t g' t' :
  len (hid_buffer g) = DBG_MAX_EP_SIZE + 1 ->
  dbg_open os g t = Returned (g', t') ->
  session g' /\ debugger_fd g' = open_result os /\ In (debugger_fd g') t'.
Proof.
  intros Hbuf. unfold dbg_open. cbn [debugger_fd hid_buffer report_size].
  destruct (open_result os <? 0); [discriminate |].
  destruct (size_ioctl_result os <? 0); [discriminate |].
  destruct (desc_ioctl_result os <? 0); [discriminate |].
  destruct (Parser.parse_hid_report_desc (desc_value os) (desc_size os))
    as [v | e |] eqn:Hparse; try discriminate.
  intros H. injection H as <- <-.
  apply ParserFacts.parse_returned_supported in Hparse.
  unfold session. cbn [debugger_fd hid_buffer report_size].
  split; [split; [exact Hbuf | exact Hparse] |].
  split; [reflexivity | left; reflexivity].
Qed.

(** ** [dbg_close] *)

Lemma sys_close_absent t fd : ~ In fd t -> sys_close t fd = (-1, t).
Proof.
  intros H. unfold sys_close.
  destruct (in_dec Z.eq_dec fd t); [contradiction |].
  rewrite andb_false_r. reflexivity.
Qed.

Lemma sys_close_releases t fd : ~ In fd (snd (sys_close t fd)) \/ fd < 0.
Proof.
  unfold sys_close.
  destruct (Z.leb_spec 0 fd); [| right; assumption].
  left. destruct (in_dec Z.eq_dec fd t); cbn [andb snd].
  - apply remove_In.
  - assumption.
Qed.

Lemma sys_close_negative t fd : fd < 0 -> sys_close t fd = (-1, t).
Proof.
  intros H. unfold sys_close.
  destruct (Z.leb_spec 0 fd); [lia | reflexivity].
Qed.

End TransportFacts.

(** * The claims about the descriptor parser *)

Section ParserClaims.
Import Parser DescriptorSpec ParserFacts Examples.

(** C1: whenever the Report Count, Input and Output items of the
    supplied byte sequence resolve, as section 4.1 of the specification
    dispatches them, to one common size among 64, 512 and 1024,
    [parse_hid_report_desc] returns that size. *)
Theorem parse_returns_common_size (data : Z -> byte) (size v : Z) :
  input_size (resolve (descriptor data size)) = v ->
  output_size (resolve (descriptor data size)) = v ->
  supported v ->
  parse_hid_report_desc data size = Returned v.
Proof.
  intros Hin Hout Hsup.
  rewrite parse_refines. unfold DescriptorSpec.parse.
  rewrite Hin, Hout.
  destruct (Z.eq_dec v v) as [_ | Hne]; [| contradiction].
  destruct (in_dec Z.eq_dec v [64; 512; 1024]) as [_ | Hno]; [reflexivity |].
  exfalso. apply Hno. apply supported_dec. exact Hsup.
Qed.

Lemma parse_returns_common_size_witness :
  parse_hid_report_desc (mem_of dap64 x00) 33 = Returned 64.
Proof.
  apply (parse_returns_common_size (mem_of dap64 x00) 33 64).
  - vm_compute. reflexivity.
  - vm_compute. reflexivity.
  - left. reflexivity.
Defined.

(** C3: the parse fails exactly when the post-pass validation is
    violated: with the size-mismatch error whenever the resolved input
    and output sizes differ, with the unsupported-size error whenever
    they agree on a size other than 64, 512 and 1024, and in no other
    case. *)
Theorem parse_fails_exactly (data : Z -> byte) (size : Z) :
  (input_size (resolve (descriptor data size))
     <> output_size (resolve (descriptor data size)) ->
   parse_hid_report_desc data size = Exited SizeMismatch) /\
  (input_size (resolve (descriptor data size))
     = output_size (resolve (descriptor data size)) ->
   ~ supported (input_size (resolve (descriptor data size))) ->
   parse_hid_report_desc data size
     = Exited (UnsupportedSize (input_size (resolve (descriptor data size))))) /\
  ((exists e, parse_hid_report_desc data size = Exited e) <->
   (input_size (resolve (descriptor data size))
      <> output_size (resolve (descriptor data size))
    \/ ~ supported (input_size (resolve (descriptor data size))))) /\
  parse_hid_report_desc data size <> Undefined.
Proof.
  rewrite parse_refines. unfold DescriptorSpec.parse.
  set (s := resolve (descriptor data size)).
  destruct (Z.eq_dec (input_size s) (output_size s)) as [Heq | Hne];
    [destruct (in_dec Z.eq_dec (input_size s) [64; 512; 1024]) as [Hin | Hout] |].
  - apply supported_dec in Hin.
    repeat split; try discriminate; try contradiction.
    + intros [e He]. discriminate.
    + intros [H | H]; contradiction.
  - assert (Hns : ~ supported (input_size s))
      by (intros H; apply Hout, supported_dec, H).
    repeat split; try discriminate; try contradiction.
    + intros _. right. exact Hns.
    + intros _. eexists. reflexivity.
  - repeat split; try discriminate; try contradiction.
    + intros _. left. exact Hne.
    + intros _. eexists. reflexivity.
Qed.

(** The two errors are reached: a descriptor whose Input size is 64 and
    whose Output size is 512, and one that resolves to 32 on both. *)
Example parse_size_mismatch :
  parse_hid_report_desc
    (mem_of [x95; x40; x81; x02; x96; x00; x02; x91; x02] x00) 9
  = Exited SizeMismatch.
Proof. reflexivity. Qed.

Example parse_unsupported_size :
  parse_hid_report_desc (mem_of [x95; x20; x81; x02; x91; x02] x00) 6
  = Exited (UnsupportedSize 32).
Proof. reflexivity. Qed.

(** C4: an item whose 2-bit size code is 3 has a payload of 4 bytes: the
    next item is taken 5 bytes on, and a Report Count item (prefix 97:
    tag 9, type 1) loads these 4 bytes and decodes them as a
    little-endian unsigned value.  Size codes 0, 1 and 2 stand for 0, 1
    and 2 bytes, and a Report Count item with size code 0 yields 0.
    The size code, the tag and the type are taken from the prefix
    byte by division, not by the tests of the loop body. *)
Theorem size_code_payload (data : Z -> byte) (i : Z) (st : pstate) :
  let prefix := u8 (data i) in
  let code := prefix mod 4 in
  let next := fst (item_step data i st) in
  let st' := snd (item_step data i st) in
  let report_count := prefix / 16 = 9 /\ (prefix / 4) mod 4 = 1 in
  0 <= code <= 3 /\
  (code = 0 ->
     next = i + 1 /\
     (report_count -> count st' = 0 /\ loads st' = loads st ++ [i])) /\
  (code = 1 ->
     next = i + 2 /\
     (report_count ->
        count st' = u8 (data (i + 1)) /\
        loads st' = loads st ++ [i; i + 1])) /\
  (code = 2 ->
     next = i + 3 /\
     (report_count ->
        count st' = u8 (data (i + 1)) + 2 ^ 8 * u8 (data (i + 2)) /\
        loads st' = loads st ++ [i; i + 1; i + 2])) /\
  (code = 3 ->
     next = i + 5 /\
     (report_count ->
        count st' = u8 (data (i + 1)) + 2 ^ 8 * u8 (data (i + 2))
                    + 2 ^ 16 * u8 (data (i + 3)) + 2 ^ 24 * u8 (data (i + 4)) /\
        loads st' = loads st ++ [i; i + 1; i + 2; i + 3; i + 4])).
Proof.
  intros prefix code next st' report_count.
  assert (Hty : bType prefix = (prefix / 4) mod 4)
    by (apply header_type).
  assert (Htag : bTag prefix = prefix / 16)
    by (apply header_tag).
  assert (Hcount : forall n : nat, (n <= 4)%nat ->
            bSize prefix = Z.of_nat n -> report_count ->
            count st' = little_endian (bytes_at data (i + 1) n) /\
            loads st' = loads st ++ i :: offsets (i + 1) n).
  { intros n Hn Hsize [Hnine Hone].
    subst st'. unfold item_step. cbn [snd].
    fold prefix. rewrite Hty, Htag, Hone, Hnine, Hsize, Nat2Z.id.
    cbn [Z.eqb Pos.eqb andb].
    rewrite count_loop_spec; cbn [count input output loads].
    - rewrite Z.add_0_r, <- app_assoc.
      split; [change (2 ^ (8 * 0)) with 1; lia | reflexivity].
    - lia.
    - lia.
    - cbn. lia. }
  assert (Hnext : next = i + 1 + bSize prefix) by reflexivity.
  assert (Hsize : bSize prefix = if 3 =? code then 4 else code).
  { subst code prefix. destruct (data i); reflexivity. }
  split.
  { subst code. pose proof (Z.mod_pos_bound prefix 4). lia. }
  split; [| split; [| split]]; intros Hc; rewrite Hc in Hsize; cbn in Hsize;
    (split; [rewrite Hnext, Hsize; lia | intros Hrc]).
  - apply (Hcount 0%nat); [lia | exact Hsize | exact Hrc].
  - destruct (Hcount 1%nat) as [Hv Hl]; [lia | exact Hsize | exact Hrc |].
    rewrite Hv, Hl. cbn [little_endian bytes_at offsets]. split; [ring | reflexivity].
  - destruct (Hcount 2%nat) as [Hv Hl]; [lia | exact Hsize | exact Hrc |].
    rewrite Hv, Hl. cbn [little_endian bytes_at offsets].
    rewrite <- !Z.add_assoc. cbn [Z.add Pos.add Pos.succ].
    split; [ring | reflexivity].
  - destruct (Hcount 4%nat) as [Hv Hl]; [lia | exact Hsize | exact Hrc |].
    rewrite Hv, Hl. cbn [little_endian bytes_at offsets].
    rewrite <- !Z.add_assoc. cbn [Z.add Pos.add Pos.succ].
    split; [ring | reflexivity].
Qed.

(** The theorem at the Report Count prefixes 97, 96, 95 and 94: the
    four payload bytes 78 56 34 12 decode to 0x12345678, the two bytes
    00 02 to 512, the one byte 40 to 64, and no byte to 0, after a
    count of 7 left by an earlier item. *)
Lemma size_code_payload_witness :
  (fst (item_step (mem_of [x97; x78; x56; x34; x12; x81; x02] x00) 0 init) = 5 /\
   count (snd (item_step (mem_of [x97; x78; x56; x34; x12; x81; x02] x00) 0 init))
     = 305419896 /\
   loads (snd (item_step (mem_of [x97; x78; x56; x34; x12; x81; x02] x00) 0 init))
     = [0; 1; 2; 3; 4]) /\
  (fst (item_step (mem_of [x96; x00; x02; x81; x02] x00) 0 init) = 3 /\
   count (snd (item_step (mem_of [x96; x00; x02; x81; x02] x00) 0 init)) = 512 /\
   loads (snd (item_step (mem_of [x96; x00; x02; x81; x02] x00) 0 init))
     = [0; 1; 2]) /\
  (fst (item_step (mem_of [x95; x40; x81; x02] x00) 0 init) = 2 /\
   count (snd (item_step (mem_of [x95; x40; x81; x02] x00) 0 init)) = 64 /\
   loads (snd (item_step (mem_of [x95; x40; x81; x02] x00) 0 init)) = [0; 1]) /\
  (fst (item_step (mem_of [x94; x81; x02] x00) 0 (mk_pstate 7 0 0 [])) = 1 /\
   count (snd (item_step (mem_of [x94; x81; x02] x00) 0 (mk_pstate 7 0 0 []))) = 0 /\
   loads (snd (item_step (mem_of [x94; x81; x02] x00) 0 (mk_pstate 7 0 0 [])))
     = [0]).
Proof.
  split; [| split; [| split]].
  - destruct (size_code_payload
                (mem_of [x97; x78; x56; x34; x12; x81; x02] x00) 0 init)
      as (_ & _ & _ & _ & H3).
    destruct (H3 eq_refl) as [Hnext Hrc].
    destruct (Hrc (conj eq_refl eq_refl)) as [Hcount Hloads].
    split; [exact Hnext |]. split; [exact Hcount | exact Hloads].
  - destruct (size_code_payload (mem_of [x96; x00; x02; x81; x02] x00) 0 init)
      as (_ & _ & _ & H2 & _).
    destruct (H2 eq_refl) as [Hnext Hrc].
    destruct (Hrc (conj eq_refl eq_refl)) as [Hcount Hloads].
    split; [exact Hnext |]. split; [exact Hcount | exact Hloads].
  - destruct (size_code_payload (mem_of [x95; x40; x81; x02] x00) 0 init)
      as (_ & _ & H1 & _ & _).
    destruct (H1 eq_refl) as [Hnext Hrc].
    destruct (Hrc (conj eq_refl eq_refl)) as [Hcount Hloads].
    split; [exact Hnext |]. split; [exact Hcount | exact Hloads].
  - destruct (size_code_payload (mem_of [x94; x81; x02] x00) 0
                (mk_pstate 7 0 0 []))
      as (_ & H0 & _ & _ & _).
    destruct (H0 eq_refl) as [Hnext Hrc].
    destruct (Hrc (conj eq_refl eq_refl)) as [Hcount Hloads].
    split; [exact Hnext |]. split; [exact Hcount | exact Hloads].
Defined.

(** A Report Count item with size code 3: the four payload bytes
    00 02 00 00 decode to 512, and the Input item is found 5 bytes on. *)
Example parse_size_code_3 :
  parse_hid_report_desc
    (mem_of [x97; x00; x02; x00; x00; x81; x02; x91; x02] x00) 9
  = Returned 512.
Proof. reflexivity. Qed.

(** C7, as stated, fails: on the one-byte sequence 95, a Report Count
    header whose one-byte payload is cut off, the parser loads offset 1
    although the supplied length is 1. *)
Lemma parse_loads_past_length :
  parse_loads (mem_of [x95] x00) 1 = [0; 1] /\
  ~ Forall (fun k => 0 <= k < 1) (parse_loads (mem_of [x95] x00) 1).
Proof.
  split; [reflexivity |].
  intros H. change (parse_loads (mem_of [x95] x00) 1) with [0; 1] in H.
  inversion H as [| ? ? _ Htl]; subst.
  inversion Htl as [| ? ? Hone _]; subst.
  lia.
Qed.

(** C7, amended: for every memory and length the parser terminates in a
    result, which is then the common resolved size and one of 64, 512
    and 1024, or in one of the two fatal errors, and this outcome
    depends on the bytes below the supplied length only.  Its loads are
    not checked against the length: they stay below length + 4, and
    below the length when no item of the sequence is truncated. *)
Theorem parse_total_and_bounded (data : Z -> byte) (size : Z) :
  (parse_hid_report_desc data size = Exited SizeMismatch
   \/ (exists n, parse_hid_report_desc data size = Exited (UnsupportedSize n))
   \/ (exists v, parse_hid_report_desc data size = Returned v /\
          supported v /\
          input_size (resolve (descriptor data size)) = v /\
          output_size (resolve (descriptor data size)) = v)) /\
  (forall data' : Z -> byte,
     (forall k, 0 <= k < size -> data' k = data k) ->
     parse_hid_report_desc data' size = parse_hid_report_desc data size) /\
  Forall (fun k => 0 <= k < size + 4) (parse_loads data size) /\
  (complete (descriptor data size) = true ->
   Forall (fun k => 0 <= k < size) (parse_loads data size)).
Proof.
  split; [| split; [| split]].
  - rewrite parse_refines. unfold DescriptorSpec.parse.
    set (s := resolve (descriptor data size)).
    destruct (Z.eq_dec (input_size s) (output_size s)) as [Heq | Hne];
      [| left; reflexivity].
    destruct (in_dec Z.eq_dec (input_size s) [64; 512; 1024]) as [Hin | Hout].
    + right; right. exists (input_size s).
      apply supported_dec in Hin. auto.
    + right; left. eexists. reflexivity.
  - intros data' Hsame. rewrite !parse_refines.
    unfold descriptor. rewrite (bytes_at_ext data data'); [reflexivity |].
    intros k Hk. apply Hsame. lia.
  - apply parse_loop_loads_slack; [lia | constructor].
  - intros Hc. apply parse_loop_loads_complete; [lia | | constructor].
    rewrite <- descriptor_window. exact Hc.
Qed.

(** A descriptor that is cut off inside its last item is not
    rejected: the sizes resolved before the cut decide. *)
Example parse_truncated_accepted :
  parse_hid_report_desc (mem_of [x95; x40; x81; x02; x91; x02; x95] x00) 7
    = Returned 64 /\
  parse_loads (mem_of [x95; x40; x81; x02; x91; x02; x95] x00) 7
    = [0; 1; 2; 4; 6; 7].
Proof. split; reflexivity. Qed.

(** The descriptor [dap64] has no truncated item. *)
Example dap64_complete : complete (descriptor (mem_of dap64 x00) 33) = true.
Proof. reflexivity. Qed.

End ParserClaims.

(** * The claims about the framed transport *)

Section TransportClaims.
Import Transport TransportFacts Examples.

(** C2: for a request of at most the negotiated packet size the bytes
    handed to [write] are report_size + 1 bytes: 00, the request, and FF
    up to the end.  At the request 02 AA BB and size 64 (the witness)
    these are 65 bytes: 00, 02 AA BB, and 61 times FF. *)
Theorem outbound_frame (dev : device) (g : globals) (data : list byte)
    (resp_size req_size : Z) :
  session g ->
  data <> [] ->
  0 <= req_size <= len data ->
  req_size <= report_size g ->
  written (dbg_dap_cmd dev g data resp_size req_size)
    = Some (x00 :: firstn (Z.to_nat req_size) data
                ++ repeat xff (Z.to_nat (report_size g - req_size))) /\
  len (x00 :: firstn (Z.to_nat req_size) data
           ++ repeat xff (Z.to_nat (report_size g - req_size)))
    = report_size g + 1.
Proof.
  intros [Hbuf Hsize] Hdata Hreq Hfit.
  unfold DBG_MAX_EP_SIZE in Hbuf.
  assert (Hrs : 0 <= report_size g <= 1024) by lia.
  split.
  - rewrite dbg_dap_cmd_eq.
    destruct data as [| cmd rest]; [contradiction |].
    cbn [load Z.leb Z.compare Z.to_nat nth_error].
    assert (Hb : fill_in_bounds (len (hid_buffer g)) (len (cmd :: rest))
                   (report_size g) req_size = true)
      by (apply fill_in_bounds_true; lia).
    rewrite Hb. cbn [written].
    rewrite filled_shape by lia.
    f_equal.
    replace (Z.to_nat (report_size g + 1)) with (S (Z.to_nat (report_size g))) by lia.
    cbn [firstn]. f_equal.
    rewrite app_assoc.
    set (body := firstn (Z.to_nat req_size) (cmd :: rest)
                 ++ repeat xff (Z.to_nat (report_size g - req_size))).
    assert (Hlen : length body = Z.to_nat (report_size g)).
    { subst body. rewrite length_app, length_firstn, repeat_length.
      unfold len in Hreq. lia. }
    rewrite <- Hlen, <- (Nat.add_0_r (length body)), firstn_app_2.
    cbn [firstn]. apply app_nil_r.
  - unfold len in *. cbn [length].
    rewrite length_app, length_firstn, repeat_length. lia.
Qed.

Lemma outbound_frame_witness :
  written (dbg_dap_cmd (mk_device 65 (ReadBytes [x02; x00]))
             opened64 [x02; xaa; xbb] 3 3)
    = Some ([x00; x02; xaa; xbb] ++ repeat xff 61) /\
  len ([x00; x02; xaa; xbb] ++ repeat xff 61) = 65.
Proof.
  apply (outbound_frame (mk_device 65 (ReadBytes [x02; x00]))
           opened64 [x02; xaa; xbb] 3 3).
  - split; [reflexivity | left; reflexivity].
  - discriminate.
  - vm_compute. split; discriminate.
  - vm_compute. discriminate.
Defined.

(** C5: an exchange on a session fails exactly when the write fails,
    the read fails, the read delivers no byte, or the first byte
    delivered differs from the first byte of the request.  Each case has
    its own error; the mismatch error carries the expected and the
    received byte, and the caller is given no payload with it. *)
Theorem exchange_fails_exactly (dev : device) (g : globals)
    (data : list byte) (resp_size req_size : Z) (cmd : byte) :
  session g ->
  load data 0 = Some cmd ->
  0 <= req_size <= len data ->
  req_size <= report_size g ->
  (write_result dev < 0 ->
   result (dbg_dap_cmd dev g data resp_size req_size) = Exited WriteFailed) /\
  (0 <= write_result dev ->
   read_result dev = ReadError ->
   result (dbg_dap_cmd dev g data resp_size req_size) = Exited ReadFailed) /\
  (0 <= write_result dev ->
   delivered (read_result dev) (report_size g + 1) = Some [] ->
   result (dbg_dap_cmd dev g data resp_size req_size) = Exited EmptyResponse) /\
  (forall b0 payload,
   0 <= write_result dev ->
   delivered (read_result dev) (report_size g + 1) = Some (b0 :: payload) ->
   b0 <> cmd ->
   result (dbg_dap_cmd dev g data resp_size req_size)
     = Exited (InvalidResponse cmd b0) /\
   answer (dbg_dap_cmd dev g data resp_size req_size)
     = Exited (InvalidResponse cmd b0)) /\
  ((exists e, result (dbg_dap_cmd dev g data resp_size req_size) = Exited e) <->
   (write_result dev < 0
    \/ read_result dev = ReadError
    \/ delivered (read_result dev) (report_size g + 1) = Some []
    \/ exists b0 payload,
         delivered (read_result dev) (report_size g + 1) = Some (b0 :: payload)
         /\ b0 <> cmd)) /\
  (0 <= resp_size <= len data ->
   result (dbg_dap_cmd dev g data resp_size req_size) <> Undefined).
Proof.
  intros [Hbuf Hsize] Hcmd Hreq Hfit.
  unfold DBG_MAX_EP_SIZE in Hbuf.
  assert (Hb : fill_in_bounds (len (hid_buffer g)) (len data)
                 (report_size g) req_size = true)
    by (apply fill_in_bounds_true; lia).
  rewrite dbg_dap_cmd_eq, Hcmd, Hb. cbn zeta. unfold answer. cbn [result].
  rewrite receive_eq by (apply filled_fits; exact Hb).
  assert (Herr : read_result dev = ReadError <->
                 delivered (read_result dev) (report_size g + 1) = None).
  { unfold delivered. destruct (read_result dev); split; intros; congruence. }
  split; [| split; [| split; [| split; [| split]]]].
  - intros Hw. destruct (Z.ltb_spec (write_result dev) 0); [reflexivity | lia].
  - intros Hw Hr. destruct (Z.ltb_spec (write_result dev) 0); [lia |].
    apply Herr in Hr. rewrite Hr. reflexivity.
  - intros Hw Hd. destruct (Z.ltb_spec (write_result dev) 0); [lia |].
    rewrite Hd. reflexivity.
  - intros b0 payload Hw Hd Hne.
    destruct (Z.ltb_spec (write_result dev) 0); [lia |].
    rewrite Hd.
    destruct (Byte.eqb b0 cmd) eqn:Heq.
    + apply Byte.byte_dec_bl in Heq. contradiction.
    + split; reflexivity.
  - split.
    + intros [e He].
      destruct (Z.ltb_spec (write_result dev) 0) as [Hw | Hw]; [left; exact Hw |].
      right.
      destruct (delivered (read_result dev) (report_size g + 1))
        as [[| b0 payload] |] eqn:Hd.
      * right; left. reflexivity.
      * right; right. exists b0, payload. split; [reflexivity |].
        destruct (Byte.eqb b0 cmd) eqn:Heq; [| apply Byte.eqb_false; exact Heq].
        exfalso. cbn [negb] in He. cbn zeta in He.
        destruct ((0 <=? _) && (_ <=? len data)) in He; discriminate.
      * left. apply Herr. reflexivity.
    + intros [Hw | [Hr | [Hd | (b0 & payload & Hd & Hne)]]].
      * destruct (Z.ltb_spec (write_result dev) 0); [| lia].
        eexists. reflexivity.
      * apply Herr in Hr. rewrite Hr.
        destruct (write_result dev <? 0); eexists; reflexivity.
      * rewrite Hd. destruct (write_result dev <? 0); eexists; reflexivity.
      * rewrite Hd.
        destruct (Byte.eqb b0 cmd) eqn:Heq;
          [apply Byte.byte_dec_bl in Heq; contradiction |].
        destruct (write_result dev <? 0); eexists; reflexivity.
  - intros Hresp.
    destruct (write_result dev <? 0); [discriminate |].
    destruct (delivered (read_result dev) (report_size g + 1))
      as [[| b0 payload] |]; try discriminate.
    destruct (negb (Byte.eqb b0 cmd)); [discriminate |].
    cbn zeta. rewrite min_if.
    replace ((0 <=? Z.min resp_size (len payload))
             && (Z.min resp_size (len payload) <=? len data)) with true;
      [discriminate |].
    symmetry. apply andb_true_iff. rewrite !Z.leb_le.
    unfold len in *. lia.
Qed.

Lemma exchange_fails_exactly_witness :
  result (dbg_dap_cmd (mk_device 65 (ReadBytes [x03; x01]))
            opened64 [x02; xaa; xbb] 3 3)
    = Exited (InvalidResponse x02 x03) /\
  answer (dbg_dap_cmd (mk_device 65 (ReadBytes [x03; x01]))
            opened64 [x02; xaa; xbb] 3 3)
    = Exited (InvalidResponse x02 x03).
Proof.
  destruct (exchange_fails_exactly (mk_device 65 (ReadBytes [x03; x01]))
              opened64 [x02; xaa; xbb] 3 3 x02)
    as (_ & _ & _ & Hmismatch & _ & _).
  - split; [reflexivity | left; reflexivity].
  - reflexivity.
  - vm_compute. split; discriminate.
  - vm_compute. discriminate.
  - apply (Hmismatch x03 [x01]).
    + vm_compute. discriminate.
    + reflexivity.
    + discriminate.
Defined.

(** C6: when an exchange returns after the read gave back the bytes
    [got], [got] is not empty, the return value is its length less one,
    whatever the capacity [resp_size], and the bytes copied to the
    caller are [got] without its first byte, cut to the smaller of the
    capacity and the return value: the copy is the whole payload when
    the return value does not exceed the capacity, and exactly
    [resp_size] bytes of it otherwise. *)
Theorem exchange_returns_actual_length (dev : device) (g : globals)
    (data : list byte) (resp_size req_size : Z)
    (got : list byte) (res : Z) (data' : list byte) (g' : globals) :
  delivered (read_result dev) (report_size g + 1) = Some got ->
  result (dbg_dap_cmd dev g data resp_size req_size) = Returned (res, data', g') ->
  0 < len got /\
  res = len got - 1 /\
  data' = firstn (Z.to_nat (Z.min resp_size res)) (tl got)
          ++ skipn (Z.to_nat (Z.min resp_size res)) data /\
  (res <= resp_size ->
   firstn (Z.to_nat (Z.min resp_size res)) (tl got) = tl got) /\
  (resp_size < res ->
   len (firstn (Z.to_nat (Z.min resp_size res)) (tl got)) = resp_size).
Proof.
  intros Hgot Hret. apply dbg_dap_cmd_returned in Hret.
  destruct Hret as (cmd & payload & _ & _ & _ & Hd & Hres & Hk & Hdata & _).
  rewrite Hgot in Hd. injection Hd as ->. cbn [tl].
  unfold len in *. cbn [length].
  split; [lia |]. split; [lia |]. split; [exact Hdata |]. split.
  - intros Hle. apply firstn_all2. lia.
  - intros Hlt. rewrite length_firstn. lia.
Qed.

Lemma exchange_returns_actual_length_witness :
  4 = len [x02; x11; x22; x33; x44] - 1 /\
  [x11; x22; xbb] = firstn 2 [x11; x22; x33; x44] ++ skipn 2 [x02; xaa; xbb] /\
  len (firstn 2 [x11; x22; x33; x44]) = 2.
Proof.
  destruct (exchange_returns_actual_length
              (mk_device 65 (ReadBytes [x02; x11; x22; x33; x44]))
              opened64 [x02; xaa; xbb] 2 3
              [x02; x11; x22; x33; x44] 4 [x11; x22; xbb]
              (mk_globals 3
                 (overwrite (filled (hid_buffer initial) [x02; xaa; xbb] 64 3)
                            0 [x02; x11; x22; x33; x44]) 64))
    as (_ & Hres & Hdata & _ & Hcut).
  - reflexivity.
  - vm_compute. reflexivity.
  - split; [exact Hres |]. split; [exact Hdata |].
    apply Hcut. vm_compute. reflexivity.
Defined.

(** C10: an exchange that returns has overwritten the caller's array in
    place: the array keeps its length, its first min(resp_size, res)
    bytes are now the payload, and every other byte is the request byte
    it was.  The byte the response was checked against is the one the
    array held at index 0 when the call was made. *)
Theorem exchange_in_place (dev : device) (g : globals) (data : list byte)
    (resp_size req_size : Z) (res : Z) (data' : list byte) (g' : globals) :
  result (dbg_dap_cmd dev g data resp_size req_size) = Returned (res, data', g') ->
  exists cmd payload,
    load data 0 = Some cmd /\
    delivered (read_result dev) (report_size g + 1) = Some (cmd :: payload) /\
    0 <= Z.min resp_size res <= len data /\
    length data' = length data /\
    (forall k, 0 <= k < Z.min resp_size res -> load data' k = load payload k) /\
    (forall k, Z.min resp_size res <= k -> load data' k = load data k).
Proof.
  intros Hret. apply dbg_dap_cmd_returned in Hret.
  destruct Hret as (cmd & payload & Hcmd & _ & _ & Hd & Hres & Hk & Hdata & _).
  exists cmd, payload.
  set (k := Z.min resp_size res) in *.
  assert (Hkp : k <= len payload) by lia.
  assert (Hseg : length (firstn (Z.to_nat k) payload) = Z.to_nat k)
    by (rewrite length_firstn; unfold len in Hkp; lia).
  split; [exact Hcmd |]. split; [exact Hd |]. split; [exact Hk |].
  subst data'. split; [| split].
  - rewrite length_app, Hseg, length_skipn. unfold len in Hk. lia.
  - intros j Hj. unfold load.
    destruct (Z.leb_spec 0 j); [| lia].
    rewrite nth_error_app1 by lia.
    rewrite nth_error_firstn.
    destruct (Nat.ltb_spec (Z.to_nat j) (Z.to_nat k)); [reflexivity | lia].
  - intros j Hj. unfold load.
    destruct (Z.leb_spec 0 j); [| reflexivity].
    rewrite nth_error_app2 by lia.
    rewrite Hseg, nth_error_skipn. f_equal. lia.
Qed.

Lemma exchange_in_place_witness :
  exists cmd payload,
    load [x02; xaa; xbb] 0 = Some cmd /\
    delivered (ReadBytes [x02; x11; x22; x33; x44]) (64 + 1) = Some (cmd :: payload) /\
    0 <= Z.min 2 4 <= len [x02; xaa; xbb] /\
    length [x11; x22; xbb] = length [x02; xaa; xbb] /\
    (forall k, 0 <= k < Z.min 2 4 -> load [x11; x22; xbb] k = load payload k) /\
    (forall k, Z.min 2 4 <= k -> load [x11; x22; xbb] k = load [x02; xaa; xbb] k).
Proof.
  apply (exchange_in_place
           (mk_device 65 (ReadBytes [x02; x11; x22; x33; x44]))
           opened64 [x02; xaa; xbb] 2 3
           4 [x11; x22; xbb]
           (mk_globals 3
              (overwrite (filled (hid_buffer initial) [x02; xaa; xbb] 64 3)
                         0 [x02; x11; x22; x33; x44]) 64)).
  vm_compute. reflexivity.
Defined.

(** C9: when two sequences of exchanges on one session have both
    returned, a further call with the same request, the same capacity
    and the same replies from the device hands the same bytes to
    [write] and gives the caller the same answer after either sequence:
    nothing that an earlier call left in [hid_buffer] shows in the
    frame or in the response. *)
Theorem exchange_no_residue (g0 : globals) (before before' : list call)
    (g g' : globals) (last : call) :
  run g0 before = Returned g ->
  run g0 before' = Returned g' ->
  written (dbg_dap_call g last) = written (dbg_dap_call g' last) /\
  answer (dbg_dap_call g last) = answer (dbg_dap_call g' last).
Proof.
  intros Hrun Hrun'.
  apply run_shape in Hrun. apply run_shape in Hrun'.
  destruct Hrun as [Hrs Hlen]. destruct Hrun' as [Hrs' Hlen'].
  unfold dbg_dap_call. apply dbg_dap_cmd_independent; congruence.
Qed.

Lemma exchange_no_residue_witness :
  written (dbg_dap_call (after opened64 [long_call]) short_call)
    = written (dbg_dap_call (after opened64 []) short_call) /\
  answer (dbg_dap_call (after opened64 [long_call]) short_call)
    = answer (dbg_dap_call (after opened64 []) short_call).
Proof.
  apply (exchange_no_residue opened64 [long_call] []).
  - vm_compute. reflexivity.
  - vm_compute. reflexivity.
Defined.

(** After [long_call] the exchange buffer still holds request bytes
    of that call behind the two bytes read back; the frame of
    [short_call] shows none of them, and its answer is the two payload
    bytes of its own response. *)
Example residue_in_buffer :
  firstn 6 (hid_buffer (after opened64 [long_call]))
    = [x05; x01; x11; x22; x33; x44].
Proof. vm_compute. reflexivity. Qed.

Example frame_after_long_call :
  option_map (firstn 6) (written (dbg_dap_call (after opened64 [long_call]) short_call))
    = Some [x00; x02; xaa; xff; xff; xff].
Proof. vm_compute. reflexivity. Qed.

Example answer_after_long_call :
  answer (dbg_dap_call (after opened64 [long_call]) short_call)
    = Returned (2, [x09; x08]).
Proof. vm_compute. reflexivity. Qed.

(** C8: [dbg_close] can be repeated: a second call right after a first
    one changes nothing, a call on a session that was never opened
    changes nothing, and so does any call while the descriptor in
    [debugger_fd] is not open; the call that finds it open releases it,
    so that it is released once. *)
Theorem dbg_close_idempotent (g : globals) (t : fd_table) :
  dbg_close (fst (dbg_close g t)) (snd (dbg_close g t)) = dbg_close g t /\
  dbg_close initial t = (initial, t) /\
  (~ In (debugger_fd g) t -> dbg_close g t = (g, t)) /\
  (0 < debugger_fd g -> ~ In (debugger_fd g) (snd (dbg_close g t))).
Proof.
  split; [| split; [| split]].
  - unfold dbg_close.
    destruct (debugger_fd g =? 0) eqn:Hz; cbn [negb fst snd].
    + rewrite Hz. reflexivity.
    + rewrite Hz. cbn [negb]. f_equal.
      destruct (sys_close_releases t (debugger_fd g)) as [Hout | Hneg].
      * rewrite (sys_close_absent _ _ Hout). reflexivity.
      * rewrite !(sys_close_negative _ _ Hneg). reflexivity.
  - unfold dbg_close, initial. cbn [debugger_fd Z.eqb negb].
    rewrite sys_close_negative by lia. reflexivity.
  - intros Hout. unfold dbg_close.
    destruct (negb (debugger_fd g =? 0)); [| reflexivity].
    rewrite (sys_close_absent _ _ Hout). reflexivity.
  - intros Hpos. unfold dbg_close.
    replace (debugger_fd g =? 0) with false by (symmetry; apply Z.eqb_neq; lia).
    cbn [negb snd].
    destruct (sys_close_releases t (debugger_fd g)) as [Hout | Hneg];
      [exact Hout | lia].
Qed.

(** Opening the probe takes descriptor 3; the first [dbg_close]
    releases it, the second finds it closed. *)
Example open_close_close :
  dbg_open probe64 initial [0; 1; 2] = Returned (opened64, [3; 0; 1; 2]) /\
  dbg_close opened64 [3; 0; 1; 2] = (opened64, [0; 1; 2]) /\
  dbg_close opened64 [0; 1; 2] = (opened64, [0; 1; 2]).
Proof. repeat split; vm_compute; reflexivity. Qed.

End TransportClaims.

(** * Further properties of the descriptor parser *)

Module ParserMoreFacts.
Import Parser DescriptorSpec Abstraction ParserFacts Items.

(** ** The loads go upwards *)

Lemma sorted_app (l m : list Z) :
  StronglySorted Z.lt l -> StronglySorted Z.lt m ->
  (forall x y, In x l -> In y m -> x < y) ->
  StronglySorted Z.lt (l ++ m).
Proof.
  intros Hl Hm Hlm. induction l as [| a l IH]; [exact Hm |].
  apply StronglySorted_inv in Hl. destruct Hl as [Hl Ha].
  cbn [app]. constructor.
  - apply IH; [exact Hl |]. intros x y Hx Hy. apply Hlm; [right |]; assumption.
  - apply Forall_app. split; [exact Ha |].
    apply Forall_forall. intros y Hy. apply Hlm; [left; reflexivity | exact Hy].
Qed.

Lemma offsets_sorted n : forall i, StronglySorted Z.lt (offsets i n).
Proof.
  induction n as [| n IH]; intros i; cbn [offsets]; constructor.
  - apply IH.
  - eapply Forall_impl; [| apply offsets_bound]. cbn. intros k Hk. lia.
Qed.

Lemma item_step_sorted data i st :
  StronglySorted Z.lt (loads st) ->
  Forall (fun k => k < i) (loads st) ->
  StronglySorted Z.lt (loads (snd (item_step data i st))) /\
  Forall (fun k => k < fst (item_step data i st))
         (loads (snd (item_step data i st))).
Proof.
  intros Hs Hb. rewrite item_step_loads, item_step_index.
  pose proof (bSize_range (data i)) as Hr.
  set (tail := if is_report_count (data i)
               then offsets (i + 1) (Z.to_nat (bSize (u8 (data i)))) else []).
  assert (Htail : Forall (fun k => i + 1 <= k < i + 1 + bSize (u8 (data i))) tail).
  { subst tail. destruct (is_report_count (data i)); [| constructor].
    eapply Forall_impl; [| apply offsets_bound]. cbn. intros k Hk. lia. }
  assert (Hts : StronglySorted Z.lt tail).
  { subst tail. destruct (is_report_count (data i));
      [apply offsets_sorted | constructor]. }
  split.
  - apply sorted_app; [exact Hs | |].
    + constructor; [exact Hts |].
      eapply Forall_impl; [| exact Htail]. cbn. intros k Hk. lia.
    + intros x y Hx Hy.
      rewrite Forall_forall in Hb. specialize (Hb x Hx).
      destruct Hy as [<- | Hy]; [exact Hb |].
      rewrite Forall_forall in Htail. specialize (Htail y Hy). cbn in Htail. lia.
  - apply Forall_app. split.
    + eapply Forall_impl; [| exact Hb]. cbn. intros k Hk. lia.
    + constructor; [lia |].
      eapply Forall_impl; [| exact Htail]. cbn. intros k Hk. lia.
Qed.

Lemma parse_loop_sorted data size : forall i st,
  StronglySorted Z.lt (loads st) ->
  Forall (fun k => k < i) (loads st) ->
  StronglySorted Z.lt (loads (parse_loop data size i st)).
Proof.
  apply (outer_loop_ind data size
    (fun i st =>
       StronglySorted Z.lt (loads st) ->
       Forall (fun k => k < i) (loads st) ->
       StronglySorted Z.lt (loads (parse_loop data size i st)))).
  - intros i st Hge Hs _. rewrite parse_loop_done by exact Hge. exact Hs.
  - intros i st Hlt IH Hs Hb.
    rewrite parse_loop_step by exact Hlt.
    destruct (item_step_sorted data i st Hs Hb) as [Hs' Hb'].
    apply IH; assumption.
Qed.

(** ** Items of a sequence that is put together *)

Lemma items_app a : forall b,
  complete a = true -> items (a ++ b) = items a ++ items b.
Proof.
  remember (length a) as m eqn:Hm. revert a Hm.
  induction m as [m IH] using lt_wf_ind. intros a Hm b Hc.
  destruct a as [| h rest]; [simp items; reflexivity |].
  cbn [app]. simp items. simp complete in Hc.
  apply andb_true_iff in Hc. destruct Hc as [Hfit Hrest].
  apply Nat.leb_le in Hfit.
  set (n := payload_length (size_code h)) in *.
  rewrite firstn_app, skipn_app.
  replace (n - length rest)%nat with 0%nat by lia.
  cbn [firstn skipn]. rewrite app_nil_r.
  cbn [app]. f_equal.
  apply (IH (length (skipn n rest))); [| reflexivity | exact Hrest].
  subst m. rewrite length_skipn. cbn [length]. lia.
Qed.

Lemma dispatch_other s h v :
  is_other h = true -> dispatch s (mk_item (tag_of h) (type_of h) v) = s.
Proof.
  unfold is_other, is_report_count, is_input, is_output, dispatch.
  cbn [tag type value].
  rewrite header_type, header_tag.
  rewrite (Z.eqb_sym 1), (Z.eqb_sym 9), (Z.eqb_sym 0), (Z.eqb_sym 8).
  destruct ((type_of h =? 1) && (tag_of h =? 9)); [discriminate |].
  destruct ((type_of h =? 0) && (tag_of h =? 8)); [discriminate |].
  destruct ((type_of h =? 0) && (tag_of h =? 9)); [discriminate |].
  reflexivity.
Qed.

Lemma resolve_without_snapshots its : forall s,
  Forall (fun it => type it <> 0 \/ (tag it <> 8 /\ tag it <> 9)) its ->
  input_size (fold_left dispatch its s) = input_size s /\
  output_size (fold_left dispatch its s) = output_size s.
Proof.
  induction its as [| it its IH]; intros s H; [split; reflexivity |].
  inversion H as [| ? ? Hit Hits]; subst.
  cbn [fold_left]. destruct (IH (dispatch s it) Hits) as [Hi Ho].
  rewrite Hi, Ho. unfold dispatch.
  destruct ((type it =? 1) && (tag it =? 9)); [split; reflexivity |].
  destruct ((type it =? 0) && (tag it =? 8)) eqn:H8.
  { apply andb_true_iff in H8. rewrite !Z.eqb_eq in H8. lia. }
  destruct ((type it =? 0) && (tag it =? 9)) eqn:H9.
  { apply andb_true_iff in H9. rewrite !Z.eqb_eq in H9. lia. }
  split; reflexivity.
Qed.

(** ** Which Report Count an Input or Output item takes *)

Lemma fold_keeps_count its : forall s,
  Forall (fun it => ~ report_count_item it) its ->
  running_count (fold_left dispatch its s) = running_count s.
Proof.
  induction its as [| it its IH]; intros s H; [reflexivity |].
  inversion H as [| ? ? Hit Hits]; subst.
  cbn [fold_left]. rewrite (IH _ Hits). unfold dispatch.
  destruct ((type it =? 1) && (tag it =? 9)) eqn:Hrc.
  { apply andb_true_iff in Hrc. rewrite !Z.eqb_eq in Hrc. contradiction. }
  destruct ((type it =? 0) && (tag it =? 8)); [reflexivity |].
  destruct ((type it =? 0) && (tag it =? 9)); reflexivity.
Qed.

Lemma fold_keeps_input its : forall s,
  Forall (fun it => ~ input_item it) its ->
  input_size (fold_left dispatch its s) = input_size s.
Proof.
  induction its as [| it its IH]; intros s H; [reflexivity |].
  inversion H as [| ? ? Hit Hits]; subst.
  cbn [fold_left]. rewrite (IH _ Hits). unfold dispatch.
  destruct ((type it =? 1) && (tag it =? 9)); [reflexivity |].
  destruct ((type it =? 0) && (tag it =? 8)) eqn:Hin.
  { apply andb_true_iff in Hin. rewrite !Z.eqb_eq in Hin. contradiction. }
  destruct ((type it =? 0) && (tag it =? 9)); reflexivity.
Qed.

Lemma fold_keeps_output its : forall s,
  Forall (fun it => ~ output_item it) its ->
  output_size (fold_left dispatch its s) = output_size s.
Proof.
  induction its as [| it its IH]; intros s H; [reflexivity |].
  inversion H as [| ? ? Hit Hits]; subst.
  cbn [fold_left]. rewrite (IH _ Hits). unfold dispatch.
  destruct ((type it =? 1) && (tag it =? 9)); [reflexivity |].
  destruct ((type it =? 0) && (tag it =? 8)); [reflexivity |].
  destruct ((type it =? 0) && (tag it =? 9)) eqn:Hout; [| reflexivity].
  apply andb_true_iff in Hout. rewrite !Z.eqb_eq in Hout. contradiction.
Qed.

Lemma dispatch_report_count s it :
  report_count_item it -> running_count (dispatch s it) = value it.
Proof.
  intros [Hty Htag]. unfold dispatch. rewrite Hty, Htag. reflexivity.
Qed.

Lemma dispatch_input s it :
  input_item it -> input_size (dispatch s it) = running_count s.
Proof.
  intros [Hty Htag]. unfold dispatch. rewrite Hty, Htag. reflexivity.
Qed.

Lemma dispatch_output s it :
  output_item it -> output_size (dispatch s it) = running_count s.
Proof.
  intros [Hty Htag]. unfold dispatch. rewrite Hty, Htag. reflexivity.
Qed.

Lemma input_from_last_count pre rc mid inp post s :
  report_count_item rc ->
  Forall (fun it => ~ report_count_item it) mid ->
  input_item inp ->
  Forall (fun it => ~ input_item it) post ->
  input_size (fold_left dispatch (pre ++ rc :: mid ++ inp :: post) s) = value rc.
Proof.
  intros Hrc Hmid Hinp Hpost.
  rewrite fold_left_app. cbn [fold_left].
  rewrite fold_left_app. cbn [fold_left].
  rewrite (fold_keeps_input _ _ Hpost), (dispatch_input _ _ Hinp).
  rewrite (fold_keeps_count _ _ Hmid). apply dispatch_report_count. exact Hrc.
Qed.

Lemma output_from_last_count pre rc mid out post s :
  report_count_item rc ->
  Forall (fun it => ~ report_count_item it) mid ->
  output_item out ->
  Forall (fun it => ~ output_item it) post ->
  output_size (fold_left dispatch (pre ++ rc :: mid ++ out :: post) s) = value rc.
Proof.
  intros Hrc Hmid Hout Hpost.
  rewrite fold_left_app. cbn [fold_left].
  rewrite fold_left_app. cbn [fold_left].
  rewrite (fold_keeps_output _ _ Hpost), (dispatch_output _ _ Hout).
  rewrite (fold_keeps_count _ _ Hmid). apply dispatch_report_count. exact Hrc.
Qed.

End ParserMoreFacts.

Section ParserExtras.
Import Parser DescriptorSpec Abstraction ParserFacts Items ParserMoreFacts Examples.

(** X1: on every memory and every length, truncated descriptors
    included, [parse_hid_report_desc] ends as the item-by-item parser
    [DescriptorSpec.parse] does on the bytes below the length, and the
    two sizes its loop leaves in [input] and [output] are those that
    the items resolve to. *)
Theorem parse_agrees_with_item_parser (data : Z -> byte) (size : Z) :
  parse_hid_report_desc data size = DescriptorSpec.parse (descriptor data size) /\
  input (parse_loop data size 0 init)
    = input_size (resolve (descriptor data size)) /\
  output (parse_loop data size 0 init)
    = output_size (resolve (descriptor data size)).
Proof.
  split.
  - apply parse_refines.
  - apply parse_loop_resolve.
Qed.

(** X2: the parser goes over the descriptor once, upwards: the
    offsets it loads are strictly increasing, so no byte is loaded
    twice and no load goes back. *)
Theorem parse_loads_increase (data : Z -> byte) (size : Z) :
  StronglySorted Z.lt (parse_loads data size).
Proof.
  unfold parse_loads. apply parse_loop_sorted; constructor.
Qed.

(** X4: a length of 0 or less is not refused as such: the loop body
    is not entered, nothing is loaded, both sizes are 0, and the parse
    ends in the unsupported-size error for 0. *)
Theorem parse_empty (data : Z -> byte) (size : Z) :
  size <= 0 ->
  parse_hid_report_desc data size = Exited (UnsupportedSize 0) /\
  parse_loads data size = [].
Proof.
  intros H. unfold parse_hid_report_desc, parse_loads.
  rewrite parse_loop_done by lia. split; reflexivity.
Qed.

Lemma parse_empty_witness :
  parse_hid_report_desc (mem_of dap64 x00) 0 = Exited (UnsupportedSize 0) /\
  parse_loads (mem_of dap64 x00) 0 = [].
Proof.
  apply (parse_empty (mem_of dap64 x00) 0). lia.
Defined.

(** X5: a descriptor none of whose items is an Input or an Output
    item is rejected with the unsupported-size error for 0, whatever
    its Report Count items say. *)
Theorem parse_without_reports (data : Z -> byte) (size : Z) :
  Forall (fun it => type it <> 0 \/ (tag it <> 8 /\ tag it <> 9))
         (items (descriptor data size)) ->
  parse_hid_report_desc data size = Exited (UnsupportedSize 0).
Proof.
  intros H. rewrite parse_refines. unfold DescriptorSpec.parse, resolve.
  destruct (resolve_without_snapshots _ (mk_sizes 0 0 0) H) as [Hi Ho].
  rewrite Hi, Ho. reflexivity.
Qed.

Lemma parse_without_reports_witness :
  parse_hid_report_desc (mem_of [x06; x00; xff; x95; x40; xc0] x00) 6
  = Exited (UnsupportedSize 0).
Proof.
  apply (parse_without_reports (mem_of [x06; x00; xff; x95; x40; xc0] x00) 6).
  change (items (descriptor (mem_of [x06; x00; xff; x95; x40; xc0] x00) 6))
    with [mk_item 0 1 65280; mk_item 9 1 64; mk_item 12 0 0].
  repeat constructor; cbn; lia.
Defined.

(** X6: an item that is neither a Report Count nor an Input nor an
    Output item is passed over together with its payload: taking it out
    of a descriptor, at a place where an item starts, does not change
    how the parse ends. *)
Theorem other_item_is_passed_over (data data' : Z -> byte) (size size' : Z)
    (a b payload : list byte) (h : byte) :
  descriptor data size = a ++ h :: payload ++ b ->
  descriptor data' size' = a ++ b ->
  complete a = true ->
  is_other h = true ->
  length payload = Z.to_nat (bSize (u8 h)) ->
  parse_hid_report_desc data size = parse_hid_report_desc data' size'.
Proof.
  intros Hd Hd' Hc Hother Hlen.
  rewrite !parse_refines, Hd, Hd'.
  unfold DescriptorSpec.parse, resolve.
  rewrite !items_app by exact Hc.
  rewrite header_size in Hlen.
  simp items. rewrite <- Hlen.
  rewrite skipn_app, Nat.sub_diag, skipn_all. cbn [skipn app].
  rewrite !fold_left_app. cbn [fold_left].
  rewrite dispatch_other by exact Hother.
  reflexivity.
Qed.

Lemma other_item_is_passed_over_witness :
  parse_hid_report_desc
    (mem_of [x95; x40; x81; x02; x26; xff; x00; x91; x02] x00) 9
  = parse_hid_report_desc (mem_of [x95; x40; x81; x02; x91; x02] x00) 6.
Proof.
  apply (other_item_is_passed_over _ _ 9 6
           [x95; x40; x81; x02] [x91; x02] [xff; x00] x26);
    reflexivity.
Defined.

(** X7: the size of a direction is the value of the last Report
    Count item before the last item of that direction.  When the last
    Input item and the last Output item each follow, with no other
    Report Count item in between, a Report Count item, the parse
    returns their common value if it is one of 64, 512 and 1024, and
    ends in the size-mismatch error if the two values differ. *)
Theorem sizes_come_from_last_report_count (data : Z -> byte) (size : Z)
    (pre mid post pre' mid' post' : list item) (rc inp rc' out : item) :
  items (descriptor data size) = pre ++ rc :: mid ++ inp :: post ->
  items (descriptor data size) = pre' ++ rc' :: mid' ++ out :: post' ->
  report_count_item rc ->
  Forall (fun it => ~ report_count_item it) mid ->
  input_item inp ->
  Forall (fun it => ~ input_item it) post ->
  report_count_item rc' ->
  Forall (fun it => ~ report_count_item it) mid' ->
  output_item out ->
  Forall (fun it => ~ output_item it) post' ->
  input_size (resolve (descriptor data size)) = value rc /\
  output_size (resolve (descriptor data size)) = value rc' /\
  (value rc = value rc' -> supported (value rc) ->
   parse_hid_report_desc data size = Returned (value rc)) /\
  (value rc <> value rc' ->
   parse_hid_report_desc data size = Exited SizeMismatch).
Proof.
  intros Hin Hout Hrc Hmid Hinp Hpost Hrc' Hmid' Hout' Hpost'.
  assert (Hi : input_size (resolve (descriptor data size)) = value rc).
  { unfold resolve. rewrite Hin. apply input_from_last_count; assumption. }
  assert (Ho : output_size (resolve (descriptor data size)) = value rc').
  { unfold resolve. rewrite Hout. apply output_from_last_count; assumption. }
  split; [exact Hi |]. split; [exact Ho |].
  rewrite parse_refines. unfold DescriptorSpec.parse. rewrite Hi, Ho.
  split.
  - intros Heq Hsup. rewrite <- Heq.
    destruct (Z.eq_dec (value rc) (value rc)) as [_ | Hne]; [| contradiction].
    destruct (in_dec Z.eq_dec (value rc) [64; 512; 1024]) as [_ | Hno];
      [reflexivity |].
    exfalso. apply Hno, supported_dec, Hsup.
  - intros Hne.
    destruct (Z.eq_dec (value rc) (value rc')) as [Heq | _];
      [contradiction | reflexivity].
Qed.

Lemma sizes_come_from_last_report_count_witness :
  input_size (resolve (descriptor (mem_of dap64 x00) 33)) = 64 /\
  output_size (resolve (descriptor (mem_of dap64 x00) 33)) = 64 /\
  (64 = 64 -> supported 64 ->
   parse_hid_report_desc (mem_of dap64 x00) 33 = Returned 64) /\
  (64 <> 64 ->
   parse_hid_report_desc (mem_of dap64 x00) 33 = Exited SizeMismatch).
Proof.
  apply (sizes_come_from_last_report_count (mem_of dap64 x00) 33
           [mk_item 0 1 65280; mk_item 0 2 1; mk_item 10 0 1;
            mk_item 1 1 0; mk_item 2 1 255; mk_item 7 1 8]
           [mk_item 0 2 1]
           [mk_item 9 1 64; mk_item 0 2 1; mk_item 9 0 2;
            mk_item 9 1 1; mk_item 0 2 1; mk_item 11 0 2; mk_item 12 0 0]
           [mk_item 0 1 65280; mk_item 0 2 1; mk_item 10 0 1;
            mk_item 1 1 0; mk_item 2 1 255; mk_item 7 1 8;
            mk_item 9 1 64; mk_item 0 2 1; mk_item 8 0 2]
           [mk_item 0 2 1]
           [mk_item 9 1 1; mk_item 0 2 1; mk_item 11 0 2; mk_item 12 0 0]
           (mk_item 9 1 64) (mk_item 8 0 2) (mk_item 9 1 64) (mk_item 9 0 2)).
  - vm_compute. reflexivity.
  - vm_compute. reflexivity.
  - split; reflexivity.
  - repeat constructor; intros [H1 H2]; discriminate.
  - split; reflexivity.
  - repeat constructor; intros [H1 H2]; discriminate.
  - split; reflexivity.
  - repeat constructor; intros [H1 H2]; discriminate.
  - split; reflexivity.
  - repeat constructor; intros [H1 H2]; discriminate.
Defined.

End ParserExtras.

(** * Further properties of the framed transport *)

Module TransportMoreFacts.
Import Transport TransportFacts.

(** A request of more than [rs] bytes fills the frame and spills
    behind it. *)
Lemma filled_frame_long hid data rs req :
  0 <= rs < req -> 1 + req <= len hid -> req <= len data ->
  firstn (Z.to_nat (rs + 1)) (filled hid data rs req)
  = x00 :: firstn (Z.to_nat rs) data.
Proof.
  intros Hrs Hhid Hdata. unfold len in *. unfold filled.
  replace (Z.to_nat (rs + 1)) with (S (Z.to_nat rs)) by lia.
  unfold overwrite. cbn [firstn skipn app repeat length Nat.add].
  f_equal.
  rewrite firstn_app, firstn_firstn.
  replace (Nat.min (Z.to_nat rs) (Z.to_nat req)) with (Z.to_nat rs) by lia.
  replace (Z.to_nat rs - length (firstn (Z.to_nat req) data))%nat with 0%nat
    by (rewrite length_firstn; lia).
  cbn [firstn]. apply app_nil_r.
Qed.

Lemma run_fd cs : forall g g',
  run g cs = Returned g' -> debugger_fd g' = debugger_fd g.
Proof.
  induction cs as [| c cs IH]; intros g g' H; cbn [run] in H.
  - injection H as <-. reflexivity.
  - destruct (result (dbg_dap_call g c)) as [[[res d] g1] | e |] eqn:Hc;
      try discriminate.
    apply dbg_dap_cmd_returned in Hc.
    destruct Hc as (cmd & payload & _ & _ & _ & _ & _ & _ & _ & Hg).
    apply IH in H. rewrite H, Hg. reflexivity.
Qed.

Lemma dbg_open_returned os g t g' t' :
  dbg_open os g t = Returned (g', t') ->
  0 <= open_result os /\ 0 <= size_ioctl_result os /\
  0 <= desc_ioctl_result os /\
  exists v,
    Parser.parse_hid_report_desc (desc_value os) (desc_size os) = Returned v /\
    g' = mk_globals (open_result os) (hid_buffer g) v /\
    t' = open_result os :: t.
Proof.
  unfold dbg_open. cbn [debugger_fd hid_buffer report_size].
  destruct (Z.ltb_spec (open_result os) 0); [discriminate |].
  destruct (Z.ltb_spec (size_ioctl_result os) 0); [discriminate |].
  destruct (Z.ltb_spec (desc_ioctl_result os) 0); [discriminate |].
  destruct (Parser.parse_hid_report_desc (desc_value os) (desc_size os))
    as [v | e |]; try discriminate.
  intros Heq. injection Heq as <- <-.
  repeat split; try assumption. exists v. repeat split.
Qed.

End TransportMoreFacts.

Section TransportExtras.
Import Transport TransportFacts TransportMoreFacts Lifecycle Examples.
Import Parser DescriptorSpec ParserFacts.

(** X8: a request longer than the negotiated packet size is not
    refused: as long as it fits the exchange buffer, the frame handed
    to [write] is 00 and the first [report_size] bytes of the request,
    without padding, and the bytes beyond are not sent. *)
Theorem long_request_is_cut (dev : device) (g : globals) (data : list byte)
    (resp_size req_size : Z) :
  session g ->
  report_size g < req_size <= DBG_MAX_EP_SIZE ->
  req_size <= len data ->
  written (dbg_dap_cmd dev g data resp_size req_size)
    = Some (x00 :: firstn (Z.to_nat (report_size g)) data) /\
  len (x00 :: firstn (Z.to_nat (report_size g)) data) = report_size g + 1.
Proof.
  intros [Hbuf Hsize] Hreq Hdata. unfold DBG_MAX_EP_SIZE in *.
  assert (Hrs : 0 <= report_size g <= 1024) by lia.
  split.
  - rewrite dbg_dap_cmd_eq.
    destruct data as [| cmd rest]; [unfold len in Hdata; cbn in Hdata; lia |].
    cbn [load Z.leb Z.compare Z.to_nat nth_error].
    assert (Hb : fill_in_bounds (len (hid_buffer g)) (len (cmd :: rest))
                   (report_size g) req_size = true)
      by (apply fill_in_bounds_true; lia).
    rewrite Hb. cbn [written]. f_equal.
    apply filled_frame_long; lia.
  - unfold len in *. cbn [length]. rewrite length_firstn. lia.
Qed.

Lemma long_request_is_cut_witness :
  written (dbg_dap_cmd (mk_device 65 (ReadBytes [x05; x01])) opened64
             (x05 :: repeat xaa 69) 4 70)
    = Some (x00 :: x05 :: repeat xaa 63) /\
  len (x00 :: x05 :: repeat xaa 63) = 65.
Proof.
  apply (long_request_is_cut (mk_device 65 (ReadBytes [x05; x01])) opened64
           (x05 :: repeat xaa 69) 4 70).
  - split; [reflexivity | left; reflexivity].
  - vm_compute. split; [reflexivity | discriminate].
  - vm_compute. discriminate.
Defined.

(** X9: lines 171-174 check neither [req_size] nor [report_size]
    against an array.  On a session the bytes they touch lie inside
    [hid_buffer] and inside the caller's array exactly when
    [0 <= req_size <= DBG_MAX_EP_SIZE] and [req_size] is at most the
    length of the caller's array; from [DBG_MAX_EP_SIZE + 1] on the
    copy of line 174 stores behind the end of [hid_buffer]. *)
Theorem request_stays_in_arrays (g : globals) (data : list byte)
    (req_size : Z) :
  session g ->
  (fill_frame g data req_size <> None <->
   0 <= req_size <= DBG_MAX_EP_SIZE /\ req_size <= len data).
Proof.
  intros [Hbuf Hsize]. rewrite fill_frame_eq.
  destruct (fill_in_bounds _ _ _ _) eqn:Hb.
  - apply fill_in_bounds_true in Hb. split; [intros _; lia | discriminate].
  - split; [intros H; contradiction H; reflexivity |].
    intros Hreq. exfalso.
    assert (Htrue : fill_in_bounds (len (hid_buffer g)) (len data)
                      (report_size g) req_size = true)
      by (apply fill_in_bounds_true; unfold DBG_MAX_EP_SIZE in *; lia).
    congruence.
Qed.

Lemma request_stays_in_arrays_witness :
  (fill_frame opened64 (x05 :: repeat xaa 1024) 1024 <> None <->
   0 <= 1024 <= DBG_MAX_EP_SIZE /\ 1024 <= len (x05 :: repeat xaa 1024)) /\
  (fill_frame opened64 (x05 :: repeat xaa 1024) 1025 <> None <->
   0 <= 1025 <= DBG_MAX_EP_SIZE /\ 1025 <= len (x05 :: repeat xaa 1024)).
Proof.
  split.
  - apply (request_stays_in_arrays opened64 (x05 :: repeat xaa 1024) 1024).
    split; [reflexivity | left; reflexivity].
  - apply (request_stays_in_arrays opened64 (x05 :: repeat xaa 1024) 1025).
    split; [reflexivity | left; reflexivity].
Defined.

(** The largest request that stays inside the arrays fills
    [hid_buffer] to its last byte; one byte more does not fit. *)
Example request_at_the_limit :
  option_map (@length byte) (fill_frame opened64 (x05 :: repeat xaa 1024) 1024)
    = Some 1025%nat /\
  fill_frame opened64 (x05 :: repeat xaa 1024) 1025 = None.
Proof. split; vm_compute; reflexivity. Qed.

(** X10: the number of bytes that [write] reports is only tested for
    being negative: a write that took none or only a part of the frame
    gives the same frame and the same result as a complete one. *)
Theorem partial_write_unnoticed (w w' : Z) (r : read_reply) (g : globals)
    (data : list byte) (resp_size req_size : Z) :
  0 <= w -> 0 <= w' ->
  dbg_dap_cmd (mk_device w r) g data resp_size req_size
  = dbg_dap_cmd (mk_device w' r) g data resp_size req_size.
Proof.
  intros Hw Hw'. unfold dbg_dap_cmd.
  destruct (load data 0) as [cmd |]; [| reflexivity].
  destruct (fill_frame g data req_size) as [hid |]; [| reflexivity].
  f_equal. unfold receive. cbn [write_result read_result].
  destruct (Z.ltb_spec w 0); [lia |].
  destruct (Z.ltb_spec w' 0); [lia |].
  reflexivity.
Qed.

Lemma partial_write_unnoticed_witness :
  dbg_dap_cmd (mk_device 0 (ReadBytes [x02; x09])) opened64 [x02; xaa] 2 2
  = dbg_dap_cmd (mk_device 65 (ReadBytes [x02; x09])) opened64 [x02; xaa] 2 2.
Proof.
  apply (partial_write_unnoticed 0 65); lia.
Defined.

(** X11: a response never carries more than [report_size] payload
    bytes.  For a call on a session whose request and capacity lie
    within the caller's array and within [DBG_MAX_EP_SIZE], the value
    returned is between 0 and [report_size]; so a capacity of
    [report_size] bytes or more is never exceeded, and the whole
    payload is copied to the caller. *)
Theorem returned_length_within_packet (dev : device) (g : globals)
    (data : list byte) (resp_size req_size : Z)
    (got : list byte) (res : Z) (data' : list byte) (g' : globals) :
  session g ->
  data <> [] ->
  0 <= req_size <= DBG_MAX_EP_SIZE ->
  req_size <= len data ->
  0 <= resp_size <= len data ->
  delivered (read_result dev) (report_size g + 1) = Some got ->
  result (dbg_dap_cmd dev g data resp_size req_size) = Returned (res, data', g') ->
  0 <= res <= report_size g /\
  (report_size g <= resp_size ->
   res <= resp_size /\
   data' = tl got ++ skipn (Z.to_nat res) data).
Proof.
  intros [Hbuf Hsize] _ _ _ _ Hgot Hret.
  apply dbg_dap_cmd_returned in Hret.
  destruct Hret as (cmd & payload & _ & Hb & _ & Hd & Hres & Hk & Hdata & _).
  rewrite Hgot in Hd. injection Hd as ->. cbn [tl].
  apply delivered_length in Hgot; [| lia].
  unfold len in *. cbn [length] in Hgot.
  split; [lia |].
  intros Hcap. split; [lia |].
  rewrite Hdata.
  replace (Z.min resp_size res) with res by lia.
  rewrite firstn_all2 by lia. reflexivity.
Qed.

Lemma returned_length_within_packet_witness :
  0 <= 2 <= report_size opened64 /\
  (report_size opened64 <= 64 ->
   2 <= 64 /\
   x11 :: x22 :: repeat xaa 62
   = tl [x02; x11; x22] ++ skipn (Z.to_nat 2) (x02 :: repeat xaa 63)).
Proof.
  apply (returned_length_within_packet
           (mk_device 65 (ReadBytes [x02; x11; x22])) opened64
           (x02 :: repeat xaa 63) 64 3
           [x02; x11; x22] 2 (x11 :: x22 :: repeat xaa 62)
           (mk_globals 3
              (overwrite (filled (hid_buffer initial) (x02 :: repeat xaa 63) 64 3)
                         0 [x02; x11; x22]) 64)).
  - split; [reflexivity | left; reflexivity].
  - discriminate.
  - vm_compute. split; discriminate.
  - vm_compute. discriminate.
  - vm_compute. split; discriminate.
  - reflexivity.
  - vm_compute. reflexivity.
Defined.

(** X12: exchanges keep the session: after any sequence of calls that
    all returned, the exchange buffer has its declared size, the
    negotiated packet size is what it was, and so is the descriptor in
    [debugger_fd]. *)
Theorem exchanges_keep_session (g g' : globals) (cs : list call) :
  session g ->
  run g cs = Returned g' ->
  session g' /\
  report_size g' = report_size g /\
  debugger_fd g' = debugger_fd g.
Proof.
  intros [Hbuf Hsize] Hrun.
  pose proof (run_fd _ _ _ Hrun) as Hfd.
  apply run_shape in Hrun. destruct Hrun as [Hrs Hlen].
  split; [| split; assumption].
  unfold session, len in *. rewrite Hrs, Hlen. split; assumption.
Qed.

Lemma exchanges_keep_session_witness :
  session (after opened64 [long_call; short_call]) /\
  report_size (after opened64 [long_call; short_call]) = report_size opened64 /\
  debugger_fd (after opened64 [long_call; short_call]) = debugger_fd opened64.
Proof.
  apply (exchanges_keep_session opened64 _ [long_call; short_call]).
  - split; [reflexivity | left; reflexivity].
  - vm_compute. reflexivity.
Defined.

(** X13: [dbg_open] returns exactly when [open] and both [ioctl]s
    succeed and the descriptor parses; it then has stored the new
    descriptor and the parsed size and left [hid_buffer] alone.  A
    failed [open] is reported before anything else, and a failed
    [ioctl] before the descriptor is looked at. *)
Theorem dbg_open_outcomes (os : open_replies) (g : globals) (t : fd_table) :
  (forall g' t',
     dbg_open os g t = Returned (g', t') <->
     0 <= open_result os /\ 0 <= size_ioctl_result os /\
     0 <= desc_ioctl_result os /\
     exists v,
       parse_hid_report_desc (desc_value os) (desc_size os) = Returned v /\
       g' = mk_globals (open_result os) (hid_buffer g) v /\
       t' = open_result os :: t) /\
  (open_result os < 0 -> dbg_open os g t = Exited OpenFailed) /\
  (0 <= open_result os ->
   size_ioctl_result os < 0 \/ desc_ioctl_result os < 0 ->
   dbg_open os g t = Exited IoctlFailed) /\
  (forall e,
     0 <= open_result os -> 0 <= size_ioctl_result os ->
     0 <= desc_ioctl_result os ->
     parse_hid_report_desc (desc_value os) (desc_size os) = Exited e ->
     dbg_open os g t = Exited e).
Proof.
  split; [| split; [| split]].
  - intros g' t'. split; [apply dbg_open_returned |].
    intros (Ho & Hs & Hd & v & Hp & -> & ->).
    unfold dbg_open. cbn [debugger_fd hid_buffer report_size].
    destruct (Z.ltb_spec (open_result os) 0); [lia |].
    destruct (Z.ltb_spec (size_ioctl_result os) 0); [lia |].
    destruct (Z.ltb_spec (desc_ioctl_result os) 0); [lia |].
    rewrite Hp. reflexivity.
  - intros Ho. unfold dbg_open. cbn [debugger_fd].
    destruct (Z.ltb_spec (open_result os) 0); [reflexivity | lia].
  - intros Ho Hi. unfold dbg_open. cbn [debugger_fd].
    destruct (Z.ltb_spec (open_result os) 0); [lia |].
    destruct (Z.ltb_spec (size_ioctl_result os) 0); [reflexivity |].
    destruct (Z.ltb_spec (desc_ioctl_result os) 0); [reflexivity | lia].
  - intros e Ho Hs Hd Hp. unfold dbg_open. cbn [debugger_fd].
    destruct (Z.ltb_spec (open_result os) 0); [lia |].
    destruct (Z.ltb_spec (size_ioctl_result os) 0); [lia |].
    destruct (Z.ltb_spec (desc_ioctl_result os) 0); [lia |].
    rewrite Hp. reflexivity.
Qed.

(** X14: after [dbg_open] and any exchanges that returned,
    [dbg_get_report_size] gives one of 64, 512 and 1024, namely the
    size that both the Input and the Output item of the descriptor
    resolve to. *)
Theorem report_size_after_open (os : open_replies) (g0 g1 g2 : globals)
    (t0 t1 : fd_table) (cs : list call) :
  dbg_open os g0 t0 = Returned (g1, t1) ->
  run g1 cs = Returned g2 ->
  supported (dbg_get_report_size g2) /\
  dbg_get_report_size g2
    = input_size (resolve (descriptor (desc_value os) (desc_size os))) /\
  dbg_get_report_size g2
    = output_size (resolve (descriptor (desc_value os) (desc_size os))).
Proof.
  intros Hopen Hrun. unfold dbg_get_report_size.
  apply run_shape in Hrun. destruct Hrun as [-> _].
  apply dbg_open_returned in Hopen.
  destruct Hopen as (_ & _ & _ & v & Hp & -> & _). cbn [report_size].
  pose proof (parse_returned_supported _ _ _ Hp) as Hsup.
  rewrite parse_refines in Hp. unfold DescriptorSpec.parse in Hp.
  destruct (Z.eq_dec _ _) as [Heq | _]; [| discriminate].
  destruct (in_dec Z.eq_dec _ _); [| discriminate].
  injection Hp as Hv. rewrite <- Heq, Hv. auto.
Qed.

Lemma report_size_after_open_witness :
  supported (dbg_get_report_size (after opened64 [long_call])) /\
  dbg_get_report_size (after opened64 [long_call])
    = input_size (resolve (descriptor (desc_value probe64) (desc_size probe64))) /\
  dbg_get_report_size (after opened64 [long_call])
    = output_size (resolve (descriptor (desc_value probe64) (desc_size probe64))).
Proof.
  apply (report_size_after_open probe64 initial opened64 _ [0; 1; 2] [3; 0; 1; 2]
           [long_call]).
  - vm_compute. reflexivity.
  - vm_compute. reflexivity.
Defined.

(** X15: [dbg_close] after [dbg_open] releases the descriptor that
    [open] returned unless that descriptor is 0: the guard of line 155
    takes 0 for "not open", so a session on descriptor 0 stays open. *)
Theorem close_after_open (os : open_replies) (g g' : globals)
    (t t' : fd_table) :
  dbg_open os g t = Returned (g', t') ->
  (0 < open_result os -> ~ In (open_result os) (snd (dbg_close g' t'))) /\
  (open_result os = 0 ->
   snd (dbg_close g' t') = t' /\ In 0 (snd (dbg_close g' t'))).
Proof.
  intros Hopen. apply dbg_open_returned in Hopen.
  destruct Hopen as (_ & _ & _ & v & _ & -> & ->).
  unfold dbg_close. cbn [debugger_fd]. split.
  - intros Hpos.
    replace (open_result os =? 0) with false by (symmetry; apply Z.eqb_neq; lia).
    cbn [negb snd].
    destruct (sys_close_releases (open_result os :: t) (open_result os))
      as [Hout | Hneg]; [exact Hout | lia].
  - intros Hzero. rewrite Hzero. cbn [Z.eqb negb snd].
    split; [reflexivity | left; reflexivity].
Qed.

Lemma close_after_open_witness :
  (0 < open_result probe64 ->
   ~ In (open_result probe64) (snd (dbg_close opened64 [3; 0; 1; 2]))) /\
  (open_result probe64 = 0 ->
   snd (dbg_close opened64 [3; 0; 1; 2]) = [3; 0; 1; 2]
   /\ In 0 (snd (dbg_close opened64 [3; 0; 1; 2]))).
Proof.
  apply (close_after_open probe64 initial opened64 [0; 1; 2] [3; 0; 1; 2]).
  vm_compute. reflexivity.
Defined.

(** With standard input closed, [open] gives descriptor 0; the session
    works, and [dbg_close] leaves the descriptor open. *)
Example close_leaves_descriptor_0 :
  dbg_open (mk_open_replies 0 0 33 0 (mem_of dap64 x00)) initial [1; 2]
    = Returned (mk_globals 0 (hid_buffer initial) 64, [0; 1; 2]) /\
  dbg_close (mk_globals 0 (hid_buffer initial) 64) [0; 1; 2]
    = (mk_globals 0 (hid_buffer initial) 64, [0; 1; 2]).
Proof. split; vm_compute; reflexivity. Qed.

(** X16: [dbg_close] touches one descriptor only: every descriptor
    other than the one in [debugger_fd] is open afterwards exactly if
    it was open before, and the file-scope variables, [debugger_fd]
    among them, keep their values. *)
Theorem dbg_close_frame (g : globals) (t : fd_table) (fd : Z) :
  fd <> debugger_fd g ->
  (In fd (snd (dbg_close g t)) <-> In fd t) /\
  fst (dbg_close g t) = g.
Proof.
  intros Hne. unfold dbg_close, sys_close.
  destruct (negb (debugger_fd g =? 0)); cbn [fst snd];
    [| split; [tauto | reflexivity]].
  destruct ((0 <=? debugger_fd g)
            && (if in_dec Z.eq_dec (debugger_fd g) t then true else false));
    cbn [snd]; (split; [| reflexivity]); [| tauto].
  split.
  - intros H. apply in_remove in H. tauto.
  - intros H. apply in_in_remove; assumption.
Qed.

Lemma dbg_close_frame_witness :
  (In 1 (snd (dbg_close opened64 [3; 0; 1; 2])) <-> In 1 [3; 0; 1; 2]) /\
  fst (dbg_close opened64 [3; 0; 1; 2]) = opened64.
Proof.
  apply (dbg_close_frame opened64 [3; 0; 1; 2] 1).
  vm_compute. discriminate.
Defined.

End TransportExtras.

(** * Properties of the enumeration *)

Module EnumerateFacts.
Import Enumerate.

(** ** [strstr] finds substrings *)

Lemma prefix_append n : forall h,
  String.prefix n h = true <-> exists b, h = String.append n b.
Proof.
  induction n as [| c n IH]; intros h.
  - split; [intros _; exists h; reflexivity | destruct h; reflexivity].
  - destruct h as [| c' h]; cbn [String.prefix String.append].
    + split; [discriminate | intros [b Hb]; discriminate].
    + destruct (Ascii.ascii_dec c c') as [-> | Hne].
      * rewrite IH. split; intros [b Hb]; exists b; congruence.
      * split; [discriminate | intros [b Hb]; congruence].
Qed.

Lemma strstr_spec h : forall n,
  strstr h n = true <->
  exists a b, h = String.append a (String.append n b).
Proof.
  induction h as [| c h IH]; intros n; cbn [strstr].
  - rewrite orb_false_r, prefix_append. split.
    + intros [b Hb]. exists String.EmptyString, b. exact Hb.
    + intros (a & b & Hab). destruct a as [| ? ?]; [| discriminate].
      exists b. exact Hab.
  - rewrite orb_true_iff, prefix_append, IH. split.
    + intros [[b Hb] | (a & b & Hab)].
      * exists String.EmptyString, b. exact Hb.
      * exists (String.String c a), b. cbn [String.append]. congruence.
    + intros (a & b & Hab). destruct a as [| c' a].
      * left. exists b. exact Hab.
      * right. exists a, b. cbn [String.append] in Hab. congruence.
Qed.

(** ** [put] *)

Lemma put_Some arr k d arr' :
  put arr k d = Some arr' ->
  0 <= k < Z.of_nat (length arr) /\
  length arr' = length arr /\
  firstn (Z.to_nat k) arr' = firstn (Z.to_nat k) arr /\
  nth_error arr' (Z.to_nat k) = Some d /\
  (forall j, (Z.to_nat k < j)%nat -> nth_error arr' j = nth_error arr j).
Proof.
  unfold put.
  destruct (Z.leb_spec 0 k) as [H0 | H0]; [| discriminate].
  destruct (Z.ltb_spec k (Z.of_nat (length arr))) as [H1 | H1]; [| discriminate].
  cbn [andb]. intros H. injection H as <-.
  assert (Hf : length (firstn (Z.to_nat k) arr) = Z.to_nat k)
    by (rewrite length_firstn; lia).
  split; [lia |]. split; [| split; [| split]].
  - rewrite length_app, Hf. cbn [length]. rewrite length_skipn. lia.
  - rewrite firstn_app, Hf, Nat.sub_diag. cbn [firstn].
    rewrite app_nil_r, firstn_firstn, Nat.min_id. reflexivity.
  - rewrite nth_error_app2 by lia. rewrite Hf, Nat.sub_diag. reflexivity.
  - intros j Hj. rewrite nth_error_app2 by lia. rewrite Hf.
    destruct (j - Z.to_nat k)%nat as [| m] eqn:Hm; [lia |].
    cbn [nth_error]. rewrite nth_error_skipn. f_equal. lia.
Qed.

Lemma in_firstn (arr : list debugger_t) k d :
  In d (firstn k arr) -> In d arr.
Proof.
  intros H. rewrite <- (firstn_skipn k arr). apply in_or_app. left. exact H.
Qed.

Lemma firstn_snoc (arr : list debugger_t) k d :
  nth_error arr k = Some d -> firstn (S k) arr = firstn k arr ++ [d].
Proof.
  revert arr. induction k as [| k IH]; intros arr H; destruct arr as [| x arr];
    try discriminate.
  - cbn in H. injection H as ->. reflexivity.
  - cbn [nth_error] in H.
    change (firstn (S (S k)) (x :: arr)) with (x :: firstn (S k) arr).
    rewrite (IH _ H). reflexivity.
Qed.

Section WithStrtolFacts.
Variable strtol16 : String.string -> Z.

(** ** The loop *)

Lemma scan_full nodes : forall size rsize arr,
  size <= rsize -> scan strtol16 nodes size rsize arr = Listed rsize arr.
Proof.
  induction nodes as [| node rest IH]; intros size rsize arr H;
    cbn [scan]; [reflexivity |].
  destruct (usb_parent node); [| apply IH; exact H].
  destruct (Z.ltb_spec rsize size); [lia | apply IH; exact H].
Qed.

(** What the loop has done when it returns. *)
Lemma scan_listed nodes : forall size rsize arr r' arr',
  0 <= rsize ->
  scan strtol16 nodes size rsize arr = Listed r' arr' ->
  rsize <= r' <= Z.max rsize size /\
  length arr' = length arr /\
  (forall j, (Z.to_nat r' < j)%nat -> nth_error arr' j = nth_error arr j) /\
  firstn (Z.to_nat r') arr'
  = firstn (Z.to_nat rsize) arr
    ++ firstn (Z.to_nat (size - rsize)) (probes strtol16 nodes).
Proof.
  induction nodes as [| node rest IH]; intros size rsize arr r' arr' H0 H;
    cbn [scan] in H.
  - injection H as <- <-. unfold probes. cbn [candidates filter].
    rewrite firstn_nil, app_nil_r. repeat split; try lia; reflexivity.
  - unfold probes in *. cbn [candidates].
    destruct (usb_parent node) as [parent |]; [| apply IH; assumption].
    destruct (Z.ltb_spec rsize size) as [Hlt | Hge].
    + destruct (describe strtol16 node parent) as [d |]; [| discriminate].
      destruct (put arr rsize d) as [arr1 |] eqn:Hput; [| discriminate].
      apply put_Some in Hput.
      destruct Hput as (Hk & Hlen & Hfirst & Hnth & Hrest).
      cbn [filter].
      destruct (strstr (product d) "CMSIS-DAP"%string).
      * apply IH in H; [| lia].
        destruct H as (Hr & Hl & Hj & Hf).
        split; [lia |]. split; [congruence |]. split.
        -- intros j Hlt'. rewrite Hj by exact Hlt'. apply Hrest. lia.
        -- rewrite Hf.
           replace (Z.to_nat (rsize + 1)) with (S (Z.to_nat rsize)) by lia.
           rewrite (firstn_snoc _ _ _ Hnth), Hfirst, <- app_assoc.
           replace (Z.to_nat (size - rsize))
             with (S (Z.to_nat (size - (rsize + 1)))) by lia.
           reflexivity.
      * apply IH in H; [| lia].
        destruct H as (Hr & Hl & Hj & Hf).
        split; [lia |]. split; [congruence |]. split.
        -- intros j Hlt'. rewrite Hj by exact Hlt'. apply Hrest. lia.
        -- rewrite Hf, Hfirst. reflexivity.
    + rewrite scan_full in H by lia. injection H as <- <-.
      replace (Z.to_nat (size - rsize)) with 0%nat by lia.
      cbn [firstn]. rewrite app_nil_r.
      repeat split; try lia; reflexivity.
Qed.

(** The loop returns when the nodes can be described and the array
    holds [size] entries. *)
Lemma scan_returns nodes : forall size rsize arr,
  0 <= rsize ->
  Forall (described strtol16) nodes ->
  size <= Z.of_nat (length arr) ->
  exists r' arr', scan strtol16 nodes size rsize arr = Listed r' arr'.
Proof.
  induction nodes as [| node rest IH]; intros size rsize arr H0 Hd Hsize;
    cbn [scan]; [eexists; eexists; reflexivity |].
  inversion Hd as [| ? ? Hnode Hrest]; subst.
  unfold described in Hnode.
  destruct (usb_parent node) as [parent |]; [| apply IH; assumption].
  destruct (Z.ltb_spec rsize size) as [Hlt | Hge]; [| apply IH; assumption].
  destruct (describe strtol16 node parent) as [d |]; [| contradiction].
  destruct (put arr rsize d) as [arr1 |] eqn:Hput.
  - pose proof (put_Some _ _ _ _ Hput) as (_ & Hlen & _).
    destruct (strstr (product d) "CMSIS-DAP"%string); apply IH;
      try assumption; try lia; rewrite Hlen; exact Hsize.
  - unfold put in Hput.
    destruct (Z.leb_spec 0 rsize); [| lia].
    destruct (Z.ltb_spec rsize (Z.of_nat (length arr))); [discriminate | lia].
Qed.

Lemma candidates_origin nodes d :
  In d (candidates strtol16 nodes) ->
  exists node parent,
    In node nodes /\ usb_parent node = Some parent /\
    describe strtol16 node parent = Some d.
Proof.
  induction nodes as [| node rest IH]; cbn [candidates]; [contradiction |].
  destruct (usb_parent node) as [parent |] eqn:Hp.
  - destruct (describe strtol16 node parent) as [d' |] eqn:Hd.
    + intros [<- | Hin].
      * exists node, parent. repeat split; [left; reflexivity | assumption..].
      * destruct (IH Hin) as (n & p & Hn & Hnp & Hnd).
        exists n, p. repeat split; [right; exact Hn | assumption..].
    + intros Hin. destruct (IH Hin) as (n & p & Hn & Hnp & Hnd).
      exists n, p. repeat split; [right; exact Hn | assumption..].
  - intros Hin. destruct (IH Hin) as (n & p & Hn & Hnp & Hnd).
    exists n, p. repeat split; [right; exact Hn | assumption..].
Qed.

End WithStrtolFacts.

End EnumerateFacts.

Section EnumerateExtras.
Import Enumerate EnumerateFacts.

(** X17: when every node with a USB parent has a device node and both
    identifiers, and the array holds [size] entries, [dbg_enumerate]
    returns, and what it returns is the number of those among the
    first [size] probes, with these probes in the order of the scan at
    the start of the array: the nodes with a USB parent whose product
    string contains CMSIS-DAP. *)
Theorem enumerate_lists_first_probes (strtol16 : String.string -> Z)
    (nodes : list hidraw_node) (debuggers : list debugger_t) (size : Z) :
  Forall (described strtol16) nodes ->
  size <= Z.of_nat (length debuggers) ->
  exists debuggers',
    dbg_enumerate strtol16 (Some nodes) debuggers size
      = Listed (Z.of_nat (length (firstn (Z.to_nat size) (probes strtol16 nodes))))
               debuggers' /\
    firstn (length (firstn (Z.to_nat size) (probes strtol16 nodes))) debuggers'
      = firstn (Z.to_nat size) (probes strtol16 nodes).
Proof.
  intros Hd Hsize. unfold dbg_enumerate.
  destruct (scan_returns strtol16 nodes size 0 debuggers) as (r' & arr' & Hscan);
    [lia | exact Hd | exact Hsize |].
  pose proof (scan_listed strtol16 _ _ _ _ _ _ (Z.le_refl 0) Hscan)
    as (Hr & _ & _ & Hf).
  cbn [Z.to_nat firstn app] in Hf. rewrite Z.sub_0_r in Hf.
  assert (Hlen : Z.to_nat r'
                 = length (firstn (Z.to_nat size) (probes strtol16 nodes))).
  { rewrite <- Hf, length_firstn.
    pose proof (scan_listed strtol16 _ _ _ _ _ _ (Z.le_refl 0) Hscan)
      as (_ & Hl & _ & _).
    lia. }
  exists arr'. rewrite Hscan, <- Hlen. split; [| exact Hf].
  f_equal. lia.
Qed.

Lemma enumerate_lists_first_probes_witness :
  exists debuggers',
    dbg_enumerate hex (Some [keyboard; orphan; edbg_probe; daplink_probe])
                  [blank; blank; blank] 3
      = Listed 2 debuggers' /\
    firstn 2 debuggers'
      = [edbg_entry;
         daplink_entry].
Proof.
  apply (enumerate_lists_first_probes hex
           [keyboard; orphan; edbg_probe; daplink_probe]
           [blank; blank; blank] 3).
  - repeat constructor; cbn; discriminate.
  - cbn. lia.
Defined.

(** X18: a call that returns has stayed inside [size] entries: the
    count lies between 0 and [size] (and is 0 for a [size] of 0 or
    less), the array has kept its length, and every entry above the
    count is what it was.  The entry at the count itself can be that of
    a device without the marker, stored before the marker was looked
    for. *)
Theorem enumerate_stays_in_bounds (strtol16 : String.string -> Z)
    (udev : option (list hidraw_node)) (debuggers debuggers' : list debugger_t)
    (size rsize : Z) :
  dbg_enumerate strtol16 udev debuggers size = Listed rsize debuggers' ->
  0 <= rsize <= Z.max 0 size /\
  length debuggers' = length debuggers /\
  (forall j, (Z.to_nat rsize < j)%nat ->
             nth_error debuggers' j = nth_error debuggers j).
Proof.
  unfold dbg_enumerate. destruct udev as [nodes |]; [| discriminate].
  intros H. apply scan_listed in H; [| lia].
  destruct H as (Hr & Hl & Hj & _). repeat split; try assumption; lia.
Qed.

Lemma enumerate_stays_in_bounds_witness :
  0 <= 1 <= Z.max 0 3 /\
  length [edbg_entry;
          keyboard_entry;
          blank]
    = length [blank; blank; blank] /\
  (forall j, (Z.to_nat 1 < j)%nat ->
     nth_error [edbg_entry;
                keyboard_entry;
                blank] j
     = nth_error [blank; blank; blank] j).
Proof.
  apply (enumerate_stays_in_bounds hex (Some [edbg_probe; keyboard])
           [blank; blank; blank] _ 3 1).
  vm_compute. reflexivity.
Defined.

(** X19: every entry that is counted comes from a node of the scan
    with a USB parent whose product attribute is present and contains
    CMSIS-DAP; a device whose product attribute is missing is stored
    as "<unknown>" and never counted. *)
Theorem enumerate_counts_marked_products (strtol16 : String.string -> Z)
    (nodes : list hidraw_node) (debuggers debuggers' : list debugger_t)
    (size rsize : Z) (d : debugger_t) :
  dbg_enumerate strtol16 (Some nodes) debuggers size = Listed rsize debuggers' ->
  In d (firstn (Z.to_nat rsize) debuggers') ->
  exists node parent a b,
    In node nodes /\
    usb_parent node = Some parent /\
    describe strtol16 node parent = Some d /\
    attr_product parent = Some (product d) /\
    product d = String.append a (String.append "CMSIS-DAP"%string b).
Proof.
  unfold dbg_enumerate. intros H Hin.
  apply scan_listed in H; [| lia].
  destruct H as (_ & _ & _ & Hf).
  rewrite Hf in Hin. cbn [Z.to_nat firstn app] in Hin.
  apply in_firstn in Hin. unfold probes in Hin.
  apply filter_In in Hin. destruct Hin as [Hc Hm].
  apply candidates_origin in Hc.
  destruct Hc as (node & parent & Hn & Hp & Hd).
  pose proof Hm as Hsub. apply strstr_spec in Hsub.
  destruct Hsub as (a & b & Hab).
  exists node, parent, a, b.
  repeat split; try assumption.
  unfold describe in Hd.
  destruct (devnode node); [| discriminate].
  destruct (attr_idVendor parent); [| discriminate].
  destruct (attr_idProduct parent); [| discriminate].
  injection Hd as <-. cbn [product] in *.
  destruct (attr_product parent) as [p |]; [reflexivity |].
  cbn in Hm. discriminate.
Qed.

Lemma enumerate_counts_marked_products_witness :
  exists node parent a b,
    In node [keyboard; orphan; edbg_probe; daplink_probe] /\
    usb_parent node = Some parent /\
    describe hex node parent
      = Some (daplink_entry) /\
    attr_product parent = Some "DAPLink CMSIS-DAP"%string /\
    "DAPLink CMSIS-DAP"%string
      = String.append a (String.append "CMSIS-DAP"%string b).
Proof.
  apply (enumerate_counts_marked_products hex
           [keyboard; orphan; edbg_probe; daplink_probe]
           [blank; blank; blank]
           [edbg_entry;
            daplink_entry;
            blank]
           3 2).
  - vm_compute. reflexivity.
  - right. left. reflexivity.
Defined.

End EnumerateExtras.
